(** * August chat: the completion gateway and the chat-turn orchestration

    A shallow embedding of
    - [supabase/functions/openrouter-chat/index.ts] (the edge function that
      negotiates a payload shape with the model provider), and
    - the [Chat] component ([handleSend], [handleFiles], [ensureConversation]),
    followed by the properties of the specification that concern them; then
    of the rest of the component (the preferences, the groups of the
    sidebar, the deletion of a conversation, the text of a PDF) and of
    [supabase/functions/openrouter-files/index.ts] (the edge function that
    uploads files), with further properties of the code.

    JavaScript strings are sequences of UTF-16 code units; [length], [slice]
    and [trim] all work on code units, so a string is a [list N] here.

    The collaborators (identity provider, store, model provider, file
    readers) are not modelled: what they answer is an input of each
    handler, and what the handler asks of them is its output, in order. *)

From Stdlib Require Import NArith ZArith Ascii String DecimalString Lia.
From Equations Require Import Equations.
From stdpp Require Import base list sorting gmap.

(** ** JavaScript strings *)

Definition jsstring := list N.

(** A source literal, code unit by code unit (ASCII literals only). *)
Definition lit (s : string) : jsstring :=
  map N_of_ascii (list_ascii_of_string s).

(** [`${n}`] for a non-negative integer below 1e21. *)
Definition decimal (n : N) : jsstring :=
  lit (NilZero.string_of_uint (N.to_uint n)).

(** Truthiness of a string: only [''] is falsy. *)
Definition truthy (s : jsstring) : bool :=
  match s with [] => false | _ :: _ => true end.

(** Truthiness of [string | null | undefined]. *)
Definition truthy_opt (o : option jsstring) : bool :=
  match o with Some s => truthy s | None => false end.

(** [a || b] on strings. *)
Definition or_else (a b : jsstring) : jsstring :=
  if truthy a then a else b.

(** [s.startsWith(p)] *)
Fixpoint startsWith (s p : jsstring) : bool :=
  match p, s with
  | [], _ => true
  | _ :: _, [] => false
  | c :: p', d :: s' => (c =? d)%N && startsWith s' p'
  end.

(** [s.replace(pat, rep)] with a string pattern: only the first occurrence
    is replaced. *)
Fixpoint replace_first (pat rep s : jsstring) : jsstring :=
  if startsWith s pat then rep ++ drop (length pat) s
  else match s with
       | [] => []
       | c :: s' => c :: replace_first pat rep s'
       end.

(** WhiteSpace and LineTerminator code units, as [String.prototype.trim]
    strips them. *)
Definition is_space (c : N) : bool :=
  ((9 <=? c) && (c <=? 13) || (c =? 32) || (c =? 160) || (c =? 5760)
   || (8192 <=? c) && (c <=? 8202) || (c =? 8232) || (c =? 8233)
   || (c =? 8239) || (c =? 8287) || (c =? 12288) || (c =? 65279))%N.

Fixpoint trimStart (s : jsstring) : jsstring :=
  match s with
  | [] => []
  | c :: s' => if is_space c then trimStart s' else s
  end.

Definition trimEnd (s : jsstring) : jsstring := rev (trimStart (rev s)).

Definition trim (s : jsstring) : jsstring := trimEnd (trimStart s).

(** The line feed of the template literals, and U+2026, the ellipsis. *)
Definition nl : jsstring := [10%N].
Definition ellipsis : jsstring := [8230%N].

(** [parts.join(sep)] *)
Fixpoint join (sep : jsstring) (parts : list jsstring) : jsstring :=
  match parts with
  | [] => []
  | [p] => p
  | p :: rest => p ++ sep ++ join sep rest
  end.

(** ASCII case folding: what the [i] flag amounts to for the ASCII letters
    of the extension patterns. *)
Definition lower (c : N) : N :=
  if ((65 <=? c) && (c <=? 90))%N then (c + 32)%N else c.

(** [/\.ext$/i.test(s)] for a literal extension [ext] in lower case. *)
Definition endsWith_ci (s ext : jsstring) : bool :=
  startsWith (rev (map lower s)) (rev ext).

(** ** Parsed JSON values *)

(** An object is kept as the list of its properties; [assoc] reads the first
    binding of a key. A number is kept as its literal: nothing here
    inspects it. *)
#[warnings="-register-all"] Inductive Json :=
| JNull
| JBool (b : bool)
| JNum (literal : jsstring)
| JStr (s : jsstring)
| JArr (items : list Json)
| JObj (fields : list (jsstring * Json)).

Fixpoint assoc {V} (k : jsstring) (kvs : list (jsstring * V)) : option V :=
  match kvs with
  | [] => None
  | (k', v) :: rest => if bool_decide (k = k') then Some v else assoc k rest
  end.

(** [v?.k] for a property name that is neither an index nor inherited;
    [None] is [undefined]. *)
Definition get_prop (k : jsstring) (v : option Json) : option Json :=
  match v with
  | Some (JObj fields) => assoc k fields
  | _ => None
  end.

(** [v?.[0]] *)
Definition get_first (v : option Json) : option Json :=
  match v with
  | Some (JArr items) => head items
  | Some (JStr s) => match s with [] => None | c :: _ => Some (JStr [c]) end
  | Some (JObj fields) => assoc (lit "0") fields
  | _ => None
  end.

(** [v ?? d] *)
Definition nullish (v : option Json) (d : Json) : Json :=
  match v with
  | None | Some JNull => d
  | Some j => j
  end.

(** ** Messages sent to the model *)

Inductive Role := system | user | assistant.

(** [content] is a string, or an array of [{type: 'image_url', image_url:
    {url}}] parts, kept as the list of their urls. *)
Inductive Content :=
| Text (s : jsstring)
| ImageParts (urls : list jsstring).

Record ChatMessage := { role : Role; content : Content }.

#[global] Instance Role_eq_dec : EqDecision Role.
Proof. solve_decision. Defined.
#[global] Instance Content_eq_dec : EqDecision Content.
Proof. solve_decision. Defined.
#[global] Instance ChatMessage_eq_dec : EqDecision ChatMessage.
Proof. solve_decision. Defined.

(** ** The completion gateway: [openrouter-chat/index.ts] *)

Module Gateway.

(** The request as the handler reads it. [json] is what [req.json()] yields:
    [None] when it throws, else a body of the declared type
    [{ messages?, model?, enableWeb? }], an absent key being [None]. *)
Record Request := {
  method : jsstring;
  Origin : option jsstring;          (* req.headers.get('Origin') *)
  Authorization : option jsstring;   (* req.headers.get('Authorization') *)
  json : option (option (list ChatMessage) * option jsstring * option bool)
}.

Record Config := {
  SUPABASE_URL : option jsstring;
  SUPABASE_SERVICE_ROLE_KEY : option jsstring;
  OPENROUTER_API_KEY : option jsstring
}.

(** What [supabaseAdmin.auth.getUser] resolves to: is [data.user] set, is
    [error] set. *)
Record UserReply := { has_user : bool; has_error : bool }.

(** One entry of [attempts]; an absent key is [None]. *)
Record Payload := {
  p_model : jsstring;
  p_messages : list ChatMessage;
  p_stream : bool;
  p_web_search : option bool;        (* web_search: { enable } *)
  p_tools : option (list jsstring)   (* tools: [{ type }] *)
}.

Record FetchRequest := {
  f_url : jsstring;
  f_method : jsstring;
  f_headers : list (jsstring * jsstring);
  f_body : Payload
}.

(** The provider's answer as the handler observes it: [r.ok], what
    [r.json()] yields ([None] when it throws) and what [r.text()] yields. *)
Record UpstreamResponse := {
  ok : bool;
  r_json : option Json;
  r_text : jsstring
}.

Inductive Body :=
| Raw (s : jsstring)
| Stringified (j : Json).            (* JSON.stringify(j) *)

Record Response := {
  status : N;
  headers : list (jsstring * jsstring);
  body : Body
}.

(** The handler answers, or an exception escapes it. *)
Inductive Result :=
| Responded (r : Response)
| Uncaught.

Definition corsHeaders (origin : option jsstring) : list (jsstring * jsstring) :=
  [ (lit "Access-Control-Allow-Origin",
      match origin with Some o => or_else o (lit "*") | None => lit "*" end);
    (lit "Access-Control-Allow-Headers",
      lit "authorization, x-client-info, apikey, content-type");
    (lit "Access-Control-Allow-Methods", lit "POST, OPTIONS") ].

Definition json_headers (origin : option jsstring) : list (jsstring * jsstring) :=
  (lit "Content-Type", lit "application/json") :: corsHeaders origin.

Definition error_response (st : N) (msg : string) (origin : option jsstring)
  : Response :=
  {| status := st;
     headers := json_headers origin;
     body := Stringified (JObj [(lit "error", JStr (lit msg))]) |}.

(** The answer after every attempt failed, and the answer on success. *)
Definition upstream_failure (origin : option jsstring) (detail : Json) : Response :=
  {| status := 500;
     headers := json_headers origin;
     body := Stringified (JObj [(lit "error", JStr (lit "OpenRouter error"));
                                (lit "detail", detail)]) |}.

Definition content_response (origin : option jsstring) (content : Json) : Response :=
  {| status := 200;
     headers := json_headers origin;
     body := Stringified (JObj [(lit "content", content)]) |}.

Definition default_model : jsstring := lit "openai/gpt-oss-20b:free".

Definition native_flag (model : jsstring) (messages : list ChatMessage) : Payload :=
  {| p_model := model; p_messages := messages; p_stream := false;
     p_web_search := Some true; p_tools := None |}.

Definition generic_tool (model : jsstring) (messages : list ChatMessage) : Payload :=
  {| p_model := model; p_messages := messages; p_stream := false;
     p_web_search := None; p_tools := Some [lit "web_search"] |}.

Definition no_tools (model : jsstring) (messages : list ChatMessage) : Payload :=
  {| p_model := model; p_messages := messages; p_stream := false;
     p_web_search := None; p_tools := None |}.

(** The [attempts] array after the pushes of lines 80-90. *)
Definition attempts (enableWeb : bool) (model : jsstring)
    (messages : list ChatMessage) : list Payload :=
  (if enableWeb then
     if startsWith model (lit "google/") then
       [native_flag model messages; generic_tool model messages]
     else [generic_tool model messages]
   else [])
  ++ [no_tools model messages].

Definition upstream_request (key : jsstring) (payload : Payload) : FetchRequest :=
  {| f_url := lit "https://openrouter.ai/api/v1/chat/completions";
     f_method := lit "POST";
     f_headers :=
       [ (lit "Authorization", lit "Bearer " ++ key);
         (lit "Content-Type", lit "application/json");
         (lit "HTTP-Referer", lit "https://example.com");
         (lit "X-Title", lit "August Chat") ];
     f_body := payload |}.

(** [try { lastDetail = await r.json() } catch { lastDetail = await r.text() }] *)
Definition detail_of (r : UpstreamResponse) : Json :=
  match r_json r with
  | Some j => j
  | None => JStr (r_text r)
  end.

Section Handler.

(** The two collaborators: the identity provider, asked through the admin
    client made of the url and the service key, and the model provider.
    Both resolve; the payloads of one request differ from one another, so
    a function of the request describes any sequence of answers. *)
Variable getUser : jsstring -> jsstring -> jsstring -> UserReply.
Variable fetch : FetchRequest -> UpstreamResponse.

(** The [for (const payload of attempts)] loop: [resp], [lastDetail] and the
    requests issued, in order. *)
Fixpoint negotiate (key : jsstring) (todo : list Payload) (lastDetail : Json)
  : option UpstreamResponse * Json * list FetchRequest :=
  match todo with
  | [] => (None, lastDetail, [])
  | payload :: rest =>
      let rq := upstream_request key payload in
      let r := fetch rq in
      if ok r then (Some r, lastDetail, [rq])
      else
        let '(resp, detail, issued) := negotiate key rest (detail_of r) in
        (resp, detail, rq :: issued)
  end.

(** [data?.choices?.[0]?.message?.content ?? ''] *)
Definition extract_content (data : Json) : Json :=
  nullish
    (get_prop (lit "content")
       (get_prop (lit "message")
          (get_first (get_prop (lit "choices") (Some data)))))
    (JStr []).

(** The handler given to [serve]: its result and the requests it sent to
    the provider. *)
Definition serve (cfg : Config) (req : Request) : Result * list FetchRequest :=
  let origin := Origin req in
  if bool_decide (method req = lit "OPTIONS") then
    (Responded {| status := 200; headers := corsHeaders origin;
                  body := Raw (lit "ok") |}, [])
  else
    let accessToken := replace_first (lit "Bearer ") [] <$> Authorization req in
    match accessToken with
    | None | Some [] =>
        (Responded (error_response 401 "Missing Authorization header" origin), [])
    | Some accessToken =>
        match SUPABASE_URL cfg, SUPABASE_SERVICE_ROLE_KEY cfg,
              OPENROUTER_API_KEY cfg with
        | Some ((_ :: _) as url), Some ((_ :: _) as service_key),
          Some ((_ :: _) as api_key) =>
            let reply := getUser url service_key accessToken in
            if has_error reply || negb (has_user reply) then
              (Responded (error_response 401 "Unauthorized" origin), [])
            else
              match json req with
              | None =>
                  (Responded (error_response 400 "Invalid JSON body" origin), [])
              | Some (b_messages, b_model, b_enableWeb) =>
                  let messages := default [] b_messages in
                  let model := or_else (default [] b_model) default_model in
                  let enableWeb := default false b_enableWeb in
                  if (length messages =? 0)%nat then
                    (Responded
                       (error_response 400 "messages must be a non-empty array" origin),
                     [])
                  else
                    let '(resp, lastDetail, issued) :=
                      negotiate api_key (attempts enableWeb model messages) JNull in
                    match resp with
                    | None =>
                        (Responded (upstream_failure origin lastDetail), issued)
                    | Some resp =>
                        match r_json resp with
                        | None => (Uncaught, issued)
                        | Some data =>
                            (Responded
                               (content_response origin (extract_content data)),
                             issued)
                        end
                    end
              end
        | _, _, _ =>
            (Responded (error_response 500 "Missing server configuration" origin), [])
        end
    end.

End Handler.

(** *** Vocabulary for the negotiation *)




(** The answer to the caller given the outcome of the negotiation. *)
Definition conclude (origin : option jsstring)
    (n : option UpstreamResponse * Json * list FetchRequest)
  : Result * list FetchRequest :=
  match n with
  | (None, lastDetail, issued) =>
      (Responded (upstream_failure origin lastDetail), issued)
  | (Some resp, _, issued) =>
      (match r_json resp with
       | None => Uncaught
       | Some data => Responded (content_response origin (extract_content data))
       end, issued)
  end.

(** A request that gets as far as the negotiation: it is not a preflight,
    carries a token the identity provider accepts, and has a non-empty
    message list; the three configuration values are set. *)
Record negotiable (getUser : jsstring -> jsstring -> jsstring -> UserReply)
    (cfg : Config) (req : Request) (api_key : jsstring)
    (messages : list ChatMessage) (model : jsstring) (enableWeb : bool) : Prop := {
  not_preflight : method req <> lit "OPTIONS";
  has_token : exists auth url service_key,
    Authorization req = Some auth
    /\ truthy (replace_first (lit "Bearer ") [] auth) = true
    /\ SUPABASE_URL cfg = Some url /\ truthy url = true
    /\ SUPABASE_SERVICE_ROLE_KEY cfg = Some service_key
    /\ truthy service_key = true
    /\ getUser url service_key (replace_first (lit "Bearer ") [] auth)
       = {| has_user := true; has_error := false |};
  has_key : OPENROUTER_API_KEY cfg = Some api_key /\ truthy api_key = true;
  has_messages : exists b_model b_enableWeb,
    json req = Some (Some messages, b_model, b_enableWeb)
    /\ messages <> []
    /\ model = or_else (default [] b_model) default_model
    /\ enableWeb = default false b_enableWeb
}.


(** *** A sample exchange *)

(** A web-enabled request for a model of the [google/] family, against a
    provider that refuses the native flag and serves the generic tool. *)
Definition sample_config : Config :=
  {| SUPABASE_URL := Some (lit "https://project.supabase.co");
     SUPABASE_SERVICE_ROLE_KEY := Some (lit "service-role");
     OPENROUTER_API_KEY := Some (lit "sk-or-1") |}.

Definition sample_messages : list ChatMessage :=
  [ {| role := user; content := Text (lit "Hello") |} ].

Definition sample_request : Request :=
  {| method := lit "POST";
     Origin := None;
     Authorization := Some (lit "Bearer token");
     json := Some (Some sample_messages,
                   Some (lit "google/gemini-2.0-flash-exp:free"), Some true) |}.

Definition sample_getUser (url service_key token : jsstring) : UserReply :=
  {| has_user := bool_decide (token = lit "token"); has_error := false |}.

Definition sample_fetch (rq : FetchRequest) : UpstreamResponse :=
  match p_web_search (f_body rq) with
  | Some _ =>
      {| ok := false;
         r_json := Some (JObj [(lit "message", JStr (lit "unknown field"))]);
         r_text := [] |}
  | None =>
      {| ok := true;
         r_json := Some (JObj [(lit "choices",
           JArr [JObj [(lit "message",
             JObj [(lit "content", JStr (lit "Hi there"))])]])]);
         r_text := [] |}
  end.

End Gateway.

(** ** The chat component: [Chat] *)

Module Chat.

Record Conversation := {
  c_id : jsstring;
  c_user_id : option jsstring;
  c_title : option jsstring;
  c_created_at : jsstring;
  c_updated_at : jsstring
}.

(** [{ name, type, size }], the metadata stored with a message. *)
Record AttachmentMeta := {
  meta_name : jsstring;
  meta_type : jsstring;
  meta_size : N
}.

Record Message := {
  msg_id : jsstring;
  msg_conversation_id : jsstring;
  msg_role : Role;
  msg_content : jsstring;
  msg_created_at : jsstring;
  msg_attachments : option (list AttachmentMeta)
}.

(** An element of the [attachments] state; optional fields are [None] when
    absent. *)
Record Attachment := {
  a_id : jsstring;
  a_name : jsstring;
  a_type : jsstring;
  a_size : N;
  a_dataUrl : option jsstring;
  a_textContent : option jsstring
}.

(** The [useState] cells the handlers read or write. *)
Record State := {
  userId : option jsstring;
  conversations : list Conversation;
  activeId : option jsstring;
  messages : list Message;
  input : jsstring;
  sending : bool;
  pendingQuery : option jsstring;
  attachments : list Attachment;
  selectedModel : jsstring;
  enableWeb : bool
}.

Definition Err := jsstring.

(** What the handlers do to the outside, in the order they do it. [Tick] is
    one firing of the [setInterval] callback with the slice it displays. *)
Inductive Event :=
| InsertConversation (user_id : option jsstring)
| InsertMessage (conversation_id : jsstring) (r : Role) (content : jsstring)
    (attachments : option (list AttachmentMeta))
| UpdateTitle (id title : jsstring)
| GetSession
| Invoke (messages : list ChatMessage) (model : jsstring) (enableWeb : bool)
    (authorization : option jsstring)
| Tick (partial : jsstring)
| Alert (msg : jsstring)
| ConsoleError (e : Err)
| ConsoleWarn.

(** What an awaited call to the persistence or identity collaborator does:
    it resolves to [{ data, error }] or it rejects. *)
Inductive reply (A : Type) :=
| Resolves (data : option A) (error : option Err)
| Rejects (e : Err).
Arguments Resolves {A} data error.
Arguments Rejects {A} e.

(** The collaborators' answers during one send, one field per call site. *)
Record SendEnv := {
  conversation_insert : reply jsstring;        (* data.id *)
  user_insert : reply Message;
  user_insert_fallback : reply Message;
  title_update : reply unit;
  session : reply jsstring;                    (* data.session?.access_token *)
  gateway : reply (option jsstring);           (* response, and response.content *)
  assistant_insert : reply Message;
  now : N;                                     (* Date.now() *)
  now_iso : jsstring                           (* new Date().toISOString() *)
}.

(** *** A state, log and exception monad for the handlers *)

Inductive outcome (A : Type) :=
| Ret (a : A)
| Throw (e : Err).
Arguments Ret {A} a.
Arguments Throw {A} e.

(** A handler step: from the component state to a value or an exception,
    the state after it and the events it produced, in order. *)
Definition M (A : Type) := State -> outcome A * State * list Event.

Definition ret {A} (a : A) : M A := fun s => (Ret a, s, []).

Definition bind {A B} (m : M A) (k : A -> M B) : M B :=
  fun s => match m s with
           | (Ret a, s', evs) =>
               let '(r, s'', evs') := k a s' in (r, s'', evs ++ evs')
           | (Throw e, s', evs) => (Throw e, s', evs)
           end.

Definition throw {A} (e : Err) : M A := fun s => (Throw e, s, []).

Definition try_catch {A} (m : M A) (handler : Err -> M A) : M A :=
  fun s => match m s with
           | (Ret a, s', evs) => (Ret a, s', evs)
           | (Throw e, s', evs) =>
               let '(r, s'', evs') := handler e s' in (r, s'', evs ++ evs')
           end.

(** [try { m } finally { cleanup }] for a cleanup that does not throw. *)
Definition try_finally {A} (m : M A) (cleanup : M unit) : M A :=
  fun s => let '(r, s', evs) := m s in
           let '(_, s'', evs') := cleanup s' in (r, s'', evs ++ evs').

Definition emit (e : Event) : M unit := fun s => (Ret tt, s, [e]).

Definition modify (f : State -> State) : M unit := fun s => (Ret tt, f s, []).

(** The outcome, the state and the events of a run. *)
Definition result {A} (x : outcome A * State * list Event) : outcome A := fst (fst x).
Definition state_after {A} (x : outcome A * State * list Event) : State := snd (fst x).
Definition events {A} (x : outcome A * State * list Event) : list Event := snd x.

Declare Scope chat_scope.
Delimit Scope chat_scope with chat.
Notation "x <- m ;; k" := (bind m (fun x => k))
  (at level 100, m at next level, right associativity) : chat_scope.
Notation "m ;; k" := (bind m (fun _ => k))
  (at level 100, right associativity) : chat_scope.
Open Scope chat_scope.

Definition when (b : bool) (m : M unit) : M unit := if b then m else ret tt.

(** [await call]: the request is logged; a rejection is thrown. *)
Definition await {A} (request : Event) (r : reply A) : M (option A * option Err) :=
  emit request ;;
  match r with
  | Resolves data error => ret (data, error)
  | Rejects e => throw e
  end.

Definition alert (msg : jsstring) : M unit := emit (Alert msg).

(** *** The state setters *)

Definition setConversations (f : list Conversation -> list Conversation) : M unit :=
  modify (fun s =>
    {| userId := userId s; conversations := f (conversations s);
       activeId := activeId s; messages := messages s; input := input s;
       sending := sending s; pendingQuery := pendingQuery s;
       attachments := attachments s; selectedModel := selectedModel s;
       enableWeb := enableWeb s |}).

Definition setActiveId (a : option jsstring) : M unit :=
  modify (fun s =>
    {| userId := userId s; conversations := conversations s;
       activeId := a; messages := messages s; input := input s;
       sending := sending s; pendingQuery := pendingQuery s;
       attachments := attachments s; selectedModel := selectedModel s;
       enableWeb := enableWeb s |}).

Definition setMessages (f : list Message -> list Message) : M unit :=
  modify (fun s =>
    {| userId := userId s; conversations := conversations s;
       activeId := activeId s; messages := f (messages s); input := input s;
       sending := sending s; pendingQuery := pendingQuery s;
       attachments := attachments s; selectedModel := selectedModel s;
       enableWeb := enableWeb s |}).

Definition setInput (v : jsstring) : M unit :=
  modify (fun s =>
    {| userId := userId s; conversations := conversations s;
       activeId := activeId s; messages := messages s; input := v;
       sending := sending s; pendingQuery := pendingQuery s;
       attachments := attachments s; selectedModel := selectedModel s;
       enableWeb := enableWeb s |}).

Definition setSending (b : bool) : M unit :=
  modify (fun s =>
    {| userId := userId s; conversations := conversations s;
       activeId := activeId s; messages := messages s; input := input s;
       sending := b; pendingQuery := pendingQuery s;
       attachments := attachments s; selectedModel := selectedModel s;
       enableWeb := enableWeb s |}).

Definition setPendingQuery (q : option jsstring) : M unit :=
  modify (fun s =>
    {| userId := userId s; conversations := conversations s;
       activeId := activeId s; messages := messages s; input := input s;
       sending := sending s; pendingQuery := q;
       attachments := attachments s; selectedModel := selectedModel s;
       enableWeb := enableWeb s |}).

Definition setAttachments (f : list Attachment -> list Attachment) : M unit :=
  modify (fun s =>
    {| userId := userId s; conversations := conversations s;
       activeId := activeId s; messages := messages s; input := input s;
       sending := sending s; pendingQuery := pendingQuery s;
       attachments := f (attachments s); selectedModel := selectedModel s;
       enableWeb := enableWeb s |}).

(** *** [ensureConversation] *)

Definition new_conversation (env : SendEnv) (uid : option jsstring)
    (newId : jsstring) : Conversation :=
  {| c_id := newId; c_user_id := uid; c_title := None;
     c_created_at := now_iso env; c_updated_at := now_iso env |}.

Definition ensureConversation (env : SendEnv) (st : State) : M jsstring :=
  if truthy_opt (activeId st) then ret (default [] (activeId st))
  else
    res <- await (InsertConversation (userId st)) (conversation_insert env) ;;
    match res with
    | (_, Some error) => throw error
    | (None, None) => throw (lit "Failed to create conversation")
    | (Some newId, None) =>
        setConversations (fun prev => new_conversation env (userId st) newId :: prev) ;;
        setActiveId (Some newId) ;;
        ret newId
    end.

(** *** The pure parts of [handleSend] *)

(** [`Attached files: ${attachments.map((a) => a.name).join(', ')}`] *)
Definition attached_files (atts : list Attachment) : jsstring :=
  lit "Attached files: " ++ join (lit ", ") (map a_name atts).

(** [text || (attachments.length > 0 ? `Attached files: ...` : '')] *)
Definition userMessageContent (text : jsstring) (atts : list Attachment) : jsstring :=
  or_else text (if (0 <? length atts)%nat then attached_files atts else []).

Definition attachments_meta (atts : list Attachment) : list AttachmentMeta :=
  map (fun a => {| meta_name := a_name a; meta_type := a_type a;
                   meta_size := a_size a |}) atts.

(** [activeConversation]: [conversations.find((c) => c.id === activeId) ?? null] *)
Definition activeConversation (st : State) : option Conversation :=
  match activeId st with
  | Some a => List.find (fun c => bool_decide (c_id c = a)) (conversations st)
  | None => None
  end.

(** [activeConversation?.title] as a truth value. *)
Definition has_title (st : State) : bool :=
  match activeConversation st with
  | Some c => truthy_opt (c_title c)
  | None => false
  end.

(** [content.length > 60 ? `${content.slice(0, 57)}…` : content] *)
Definition summarized (content : jsstring) : jsstring :=
  if (60 <? length content)%nat then take 57 content ++ ellipsis else content.

Definition file_section (name body : jsstring) : jsstring :=
  nl ++ nl ++ lit "--- File: " ++ name ++ lit " ---" ++ nl ++ body.

(** Is the attachment pushed to [images]: it has no text, an image type and
    a data URL. *)
Definition goes_to_images (a : Attachment) : bool :=
  negb (truthy_opt (a_textContent a))
  && startsWith (a_type a) (lit "image/") && truthy_opt (a_dataUrl a).

(** The bound on the inlined text of one file: [slice(0, 20000)]. *)
#[warnings="-abstract-large-number"] Definition text_limit : nat := 20000.

(** One iteration of [for (const a of attachments)] on [combined] and
    [images]. *)
Definition inline_attachment (acc : jsstring * list (jsstring * jsstring))
    (a : Attachment) : jsstring * list (jsstring * jsstring) :=
  let '(combined, images) := acc in
  if truthy_opt (a_textContent a) then
    (combined ++ file_section (a_name a) (take text_limit (default [] (a_textContent a))),
     images)
  else if startsWith (a_type a) (lit "image/") && truthy_opt (a_dataUrl a) then
    (combined, images ++ [(default [] (a_dataUrl a), a_name a)])
  else
    (combined ++ file_section (a_name a)
       (lit "[No extractable text found. Type: " ++ a_type a ++ lit ", "
        ++ decimal (a_size a) ++ lit " bytes]"),
     images).

Definition combined_start (content : jsstring) : jsstring :=
  or_else content (lit "(no text, files attached)")
  ++ nl ++ nl ++ lit "[Attached files provided as inline text below]".

(** [messagesForLLM] as it is passed to the edge function. *)
Definition messagesForLLM (prior : list Message) (atts : list Attachment)
    (content : jsstring) : list ChatMessage :=
  let history :=
    map (fun m => {| role := msg_role m; content := Text (msg_content m) |}) prior in
  if (0 <? length atts)%nat then
    let '(combined, images) :=
      fold_left inline_attachment atts (combined_start content, []) in
    history
    ++ [ {| role := user; content := Text combined |} ]
    ++ (if (0 <? length images)%nat
        then [ {| role := user; content := ImageParts (map fst images) |} ]
        else [])
  else
    history ++ [ {| role := user; content := Text content |} ].

(** *** The typing effect *)

(** [Math.max(1, Math.floor(total / 120))] *)
Definition reveal_step (total : nat) : nat := Nat.max 1 (total / 120).

(** The values [i] takes in the interval callback, from the current [i]
    until [clearInterval]. *)
Equations? ticks (total i : nat) : list nat by wf (total - i) lt :=
ticks total i with le_lt_dec total (Nat.min total (i + reveal_step total)) := {
  | left _ => [Nat.min total (i + reveal_step total)]
  | right _ =>
      Nat.min total (i + reveal_step total)
        :: ticks total (Nat.min total (i + reveal_step total)) }.
Proof. unfold reveal_step in *. lia. Qed.

(** The slices [assistantText.slice(0, i)] displayed, in order. *)
Definition reveal (assistantText : jsstring) : list jsstring :=
  map (fun i => take i assistantText) (ticks (length assistantText) 0).

Definition set_content (tempId partial : jsstring) (m : Message) : Message :=
  if bool_decide (msg_id m = tempId) then
    {| msg_id := msg_id m; msg_conversation_id := msg_conversation_id m;
       msg_role := msg_role m; msg_content := partial;
       msg_created_at := msg_created_at m;
       msg_attachments := msg_attachments m |}
  else m.

(** The interval callbacks, one per slice. *)
Fixpoint play (tempId : jsstring) (slices : list jsstring) : M unit :=
  match slices with
  | [] => ret tt
  | partial :: rest =>
      emit (Tick partial) ;;
      setMessages (map (set_content tempId partial)) ;;
      play tempId rest
  end.

(** The [if (assistantText) { ... }] block. *)
Definition show_assistant (env : SendEnv) (conversationId assistantText : jsstring)
  : M unit :=
  when (truthy assistantText)
    (let tempId := lit "temp-" ++ decimal (now env) in
     setMessages (fun prev => prev ++
       [ {| msg_id := tempId; msg_conversation_id := conversationId;
            msg_role := assistant; msg_content := [];
            msg_created_at := now_iso env; msg_attachments := None |} ]) ;;
     play tempId (reveal assistantText) ;;
     res <- await (InsertMessage conversationId assistant assistantText None)
              (assistant_insert env) ;;
     match fst res with
     | Some finalMsg =>
         setMessages (map (fun m => if bool_decide (msg_id m = tempId)
                                    then finalMsg else m))
     | None => ret tt
     end).

(** *** [handleSend] *)

(** The first insert of the user message, with its own [try]/[catch]:
    [insertedUser] and [insertError]. *)
Definition insert_user (env : SendEnv) (conversationId content : jsstring)
    (atts : list Attachment) : M (option Message * option Err) :=
  try_catch
    (await (InsertMessage conversationId user content
              (if (0 <? length atts)%nat then Some (attachments_meta atts) else None))
       (user_insert env))
    (fun e => ret (None, Some e)).

(** Lines 336-363: the insert, the fallback insert when the first one
    failed and there are attachments, and the optimistic append. *)
Definition persist_user (env : SendEnv) (conversationId content : jsstring)
    (atts : list Attachment) : M unit :=
  first <- insert_user env conversationId content atts ;;
  let '(insertedUser, insertError) := first in
  insertedUser <-
    (if negb (bool_decide (is_Some insertedUser))
        && bool_decide (is_Some insertError) && (0 <? length atts)%nat
     then
       let fallbackContent := or_else content (attached_files atts) in
       res <- await (InsertMessage conversationId user fallbackContent None)
                (user_insert_fallback env) ;;
       ret (fst res)
     else ret insertedUser) ;;
  match insertedUser with
  | Some m => setMessages (fun prev => prev ++ [m])
  | None => ret tt
  end.

(** Lines 365-372: the title, when the active conversation has none. *)
Definition title_conversation (env : SendEnv) (st : State)
    (conversationId content : jsstring) : M unit :=
  when (negb (has_title st))
    (await (UpdateTitle conversationId (summarized content)) (title_update env) ;;
     ret tt).

(** [(response?.content as string) ?? ''] *)
Definition answer_text (response : option (option jsstring)) : jsstring :=
  default [] (mjoin response).

(** Lines 374-411: the call to the edge function, yielding [assistantText]. *)
Definition ask_gateway (env : SendEnv) (st : State) (content : jsstring)
  : M jsstring :=
  let forLLM := messagesForLLM (messages st) (attachments st) content in
  sessionData <- await GetSession (session env) ;;
  let accessToken := fst sessionData in
  res <- await
           (Invoke forLLM (selectedModel st) (enableWeb st)
              (if truthy_opt accessToken
               then Some (lit "Bearer " ++ default [] accessToken)
               else None))
           (gateway env) ;;
  match snd res with
  | Some error => throw error
  | None => ret (answer_text (fst res))
  end.

(** The [try] block. *)
Definition send_turn (env : SendEnv) (st : State) (text : jsstring) : M unit :=
  conversationId <- ensureConversation env st ;;
  let content := userMessageContent text (attachments st) in
  setInput [] ;;
  when (truthy_opt (pendingQuery st)) (setPendingQuery None) ;;
  persist_user env conversationId content (attachments st) ;;
  title_conversation env st conversationId content ;;
  assistantText <- ask_gateway env st content ;;
  show_assistant env conversationId assistantText.

(** [handleSend], called in a render whose state is [st]: the closure reads
    [st], the setters act on the current state. *)
Definition handleSend (env : SendEnv) (st : State) : M unit :=
  let text := trim (default (input st) (pendingQuery st)) in
  if (negb (truthy text) && (length (attachments st) =? 0)%nat) || sending st
  then ret tt
  else
    setSending true ;;
    try_finally
      (try_catch (send_turn env st text)
         (fun err => emit (ConsoleError err) ;; alert (lit "Failed to send message")))
      (setSending false ;; setAttachments (fun _ => [])).

(** *** [handleFiles] *)

(** A [File] as the handler observes it: its metadata, the random part of
    the id given to it, and what each reader yields on it. [None] is a
    rejected read; the extractors catch their own failures and yield ['']. *)
Record File := {
  file_name : jsstring;
  file_type : jsstring;
  file_size : N;
  file_uuid : jsstring;
  file_dataURL : option jsstring;    (* readFileAsDataURL *)
  file_ocr : jsstring;               (* extractImageOcr *)
  file_text : option jsstring;       (* readFileAsText *)
  file_pdf : jsstring;               (* extractPdfText *)
  file_docx : jsstring               (* extractDocxText *)
}.

Definition maxCount : Z := 5.
Definition maxBytes : N := 10 * 1024 * 1024.

(** [Math.max(0, maxCount - attachments.length)] *)
Definition remaining (st : State) : nat :=
  Z.to_nat (Z.max 0 (maxCount - Z.of_nat (length (attachments st)))).

(** [files.slice(0, remaining)] *)
Definition accepted (st : State) (files : list File) : list File :=
  take (remaining st) files.

(** [/^(text\/|application\/(json|xml|csv))/.test(type)] *)
Definition is_text_type (type : jsstring) : bool :=
  startsWith type (lit "text/") || startsWith type (lit "application/json")
  || startsWith type (lit "application/xml")
  || startsWith type (lit "application/csv").

(** [/\.(txt|md|json|csv)$/i.test(name)] *)
Definition has_text_extension (name : jsstring) : bool :=
  endsWith_ci name (lit ".txt") || endsWith_ci name (lit ".md")
  || endsWith_ci name (lit ".json") || endsWith_ci name (lit ".csv").

Definition docx_type : jsstring :=
  lit "application/vnd.openxmlformats-officedocument.wordprocessingml.document".

Definition item_of (f : File) (dataUrl textContent : option jsstring) : Attachment :=
  {| a_id := file_name f ++ lit "-" ++ decimal (file_size f) ++ lit "-" ++ file_uuid f;
     a_name := file_name f;
     a_type := or_else (file_type f) (lit "application/octet-stream");
     a_size := file_size f;
     a_dataUrl := dataUrl;
     a_textContent := textContent |}.

(** The [try]/[catch] around the readers: the item that is pushed, and
    whether the warning was logged. *)
Definition read_item (f : File) : Attachment * bool :=
  let type := or_else (file_type f) (lit "application/octet-stream") in
  if startsWith type (lit "image/") then
    match file_dataURL f with
    | None => (item_of f None None, true)
    | Some url =>
        (item_of f (Some url)
           (if truthy (file_ocr f) then Some (file_ocr f) else None), false)
    end
  else if is_text_type type || has_text_extension (file_name f) then
    match file_text f with
    | None => (item_of f None None, true)
    | Some t => (item_of f None (Some t), false)
    end
  else if bool_decide (type = lit "application/pdf")
          || endsWith_ci (file_name f) (lit ".pdf") then
    (item_of f None (Some (file_pdf f)), false)
  else if bool_decide (type = docx_type)
          || endsWith_ci (file_name f) (lit ".docx") then
    (item_of f None (Some (file_docx f)), false)
  else (item_of f None (Some []), false).

Definition too_large_notice (f : File) : jsstring :=
  lit "File " ++ [34%N] ++ file_name f ++ [34%N]
  ++ lit " exceeds 10MB and was skipped.".

Definition too_many_notice : jsstring :=
  lit "You can attach up to " ++ decimal (Z.to_N maxCount)
  ++ lit " files per message.".

(** The [for (const f of accepted)] loop, building [next]. *)
Fixpoint process (todo : list File) (next : list Attachment) : M (list Attachment) :=
  match todo with
  | [] => ret next
  | f :: rest =>
      if (maxBytes <? file_size f)%N then
        alert (too_large_notice f) ;; process rest next
      else
        let '(item, warned) := read_item f in
        when warned (emit ConsoleWarn) ;;
        process rest (next ++ [item])
  end.

Definition handleFiles (st : State) (files : list File) : M unit :=
  when (remaining st <? length files)%nat (alert too_many_notice) ;;
  next <- process (accepted st files) [] ;;
  setAttachments (fun prev => prev ++ next).

(** *** The conversations table, as far as titles go *)

(** The stored title of each row of [public.conversations] ([title text],
    nullable, no default, no trigger): an [UpdateTitle] the store accepts is
    [update({ title }).eq('id', id)]; an accepted conversation insert adds a
    row with a null title under the id it returns; message inserts leave
    titles alone. *)
Definition apply_event (env : SendEnv) (e : Event)
    (db : gmap jsstring (option jsstring)) : gmap jsstring (option jsstring) :=
  match e with
  | UpdateTitle id title =>
      match title_update env with
      | Resolves _ None => alter (fun _ => Some title) id db
      | _ => db
      end
  | InsertConversation _ =>
      match conversation_insert env with
      | Resolves (Some newId) None => <[newId := None]> db
      | _ => db
      end
  | _ => db
  end.

Definition apply_log (env : SendEnv) (events : list Event)
    (db : gmap jsstring (option jsstring)) : gmap jsstring (option jsstring) :=
  fold_left (fun db e => apply_event env e db) events db.

(** *** Vocabulary for the properties *)

(** The conversation id [ensureConversation] returns, if it returns. *)
Definition conversation_of (env : SendEnv) (st : State) : option jsstring :=
  if truthy_opt (activeId st) then activeId st
  else match conversation_insert env with
       | Resolves (Some newId) None => Some newId
       | _ => None
       end.

(** The guard of [handleSend] lets the send through. *)
Definition accepts_send (st : State) : Prop :=
  (negb (truthy (trim (default (input st) (pendingQuery st))))
   && (length (attachments st) =? 0)%nat) || sending st = false.

(** The contents of the message inserts of a role, in order. *)
Definition inserted_contents (r : Role) (evs : list Event) : list jsstring :=
  omap (fun e => match e with
                 | InsertMessage _ r' content _ =>
                     if bool_decide (r' = r) then Some content else None
                 | _ => None
                 end) evs.


Definition notices (evs : list Event) : list jsstring :=
  omap (fun e => match e with Alert msg => Some msg | _ => None end) evs.

Definition titles (evs : list Event) : list jsstring :=
  omap (fun e => match e with UpdateTitle _ title => Some title | _ => None end) evs.





(** [onChange] of the text area. *)
Definition onChange (value : jsstring) : M unit := setInput value.

(** Every event of [m], from any state, satisfies [P]. *)
Definition emits {A} (P : Event -> Prop) (m : M A) : Prop :=
  forall s, Forall P (events (m s)).

(** [m] can return [a]. *)
Definition returns {A} (m : M A) (a : A) : Prop :=
  exists s, result (m s) = Ret a.

(** [m] leaves the message list as it is. *)
Definition keeps_messages {A} (m : M A) : Prop :=
  forall s, messages (state_after (m s)) = messages s.


(** An event that writes no title other than [summary]. *)
Definition titled_with (summary : jsstring) (e : Event) : Prop :=
  match e with UpdateTitle _ title => title = summary | _ => True end.


(** [f.size > maxBytes] *)
Definition too_large (f : File) : bool := (maxBytes <? file_size f)%N.

(** An event that shows or stores nothing of an assistant message. *)
Definition no_assistant_output (e : Event) : Prop :=
  match e with
  | Tick _ | InsertMessage _ assistant _ _ => False
  | _ => True
  end.

(** [m] is the row the store returned for the user message. *)
Definition user_row (env : SendEnv) (m : Message) : Prop :=
  (exists error, user_insert env = Resolves (Some m) error)
  \/ (exists error, user_insert_fallback env = Resolves (Some m) error).

(** The message list after a step: as before, or with the user row added. *)
Definition adds_user_row_at_most (env : SendEnv) (before after : list Message) : Prop :=
  after = before \/ exists m, user_row env m /\ after = before ++ [m].


Definition not_alert (e : Event) : Prop :=
  match e with Alert _ => False | _ => True end.

(** *** Sample sessions *)

Definition fresh : State :=
  {| userId := Some (lit "u1"); conversations := []; activeId := None;
     messages := []; input := []; sending := false; pendingQuery := None;
     attachments := []; selectedModel := lit "openai/gpt-oss-20b:free";
     enableWeb := false |}.

Definition row (id : string) (r : Role) (text : jsstring) : Message :=
  {| msg_id := lit id; msg_conversation_id := lit "c1"; msg_role := r;
     msg_content := text; msg_created_at := lit "2025-01-01T00:00:00.000Z";
     msg_attachments := None |}.

(** Every collaborator accepts; the model answers [answer]. *)
Definition accepting (sent answer : jsstring) : SendEnv :=
  {| conversation_insert := Resolves (Some (lit "c1")) None;
     user_insert := Resolves (Some (row "m1" user sent)) None;
     user_insert_fallback := Resolves (Some (row "m1" user sent)) None;
     title_update := Resolves None None;
     session := Resolves (Some (lit "token")) None;
     gateway := Resolves (Some (Some answer)) None;
     assistant_insert := Resolves (Some (row "m2" assistant answer)) None;
     now := 1700000000000;
     now_iso := lit "2025-01-01T00:00:00.000Z" |}.

(** The same, but the store rejects the insert of the user message. *)
Definition rejecting_user_insert (answer : jsstring) : SendEnv :=
  {| conversation_insert := Resolves (Some (lit "c1")) None;
     user_insert := Resolves None (Some (lit "row-level security"));
     user_insert_fallback := Resolves None (Some (lit "row-level security"));
     title_update := Resolves None None;
     session := Resolves (Some (lit "token")) None;
     gateway := Resolves (Some (Some answer)) None;
     assistant_insert := Resolves (Some (row "m2" assistant answer)) None;
     now := 1700000000000;
     now_iso := lit "2025-01-01T00:00:00.000Z" |}.

(** The state after the user typed [text] in the state [st]. *)
Definition typed (text : jsstring) (st : State) : State :=
  state_after (onChange text st).

(** Sixty-one letters. *)
Definition long_text : jsstring := repeat 97%N 61.


Definition small_file (name : string) : File :=
  {| file_name := lit name; file_type := lit "text/plain"; file_size := 50;
     file_uuid := lit "0000"; file_dataURL := None; file_ocr := [];
     file_text := Some (lit "abc"); file_pdf := []; file_docx := [] |}.



(** The turn after [note.txt] was dropped on the composer. *)
Definition with_note : State :=
  state_after (handleFiles fresh [small_file "note.txt"] fresh).


(** The session after a first turn ["Hello"] answered ["Hi there"], and the
    conversations table after it. *)
Definition first_turn : outcome unit * State * list Event :=
  handleSend (accepting (lit "Hello") (lit "Hi there"))
    (typed (lit "Hello") fresh) (typed (lit "Hello") fresh).

Definition table_after_first_turn : gmap jsstring (option jsstring) :=
  apply_log (accepting (lit "Hello") (lit "Hi there")) (events first_turn) empty.

(** The second turn of that session: the user types ["Bye"] and sends. *)
Definition second_turn : outcome unit * State * list Event :=
  handleSend (accepting (lit "Bye") (lit "See you"))
    (typed (lit "Bye") (state_after first_turn))
    (typed (lit "Bye") (state_after first_turn)).

(** *** The rest of the component *)

(** [handleNewConversation] *)
Definition handleNewConversation : M unit :=
  setActiveId None ;; setMessages (fun _ => []).

Definition setSelectedModel (v : jsstring) : M unit :=
  modify (fun s =>
    {| userId := userId s; conversations := conversations s;
       activeId := activeId s; messages := messages s; input := input s;
       sending := sending s; pendingQuery := pendingQuery s;
       attachments := attachments s; selectedModel := v;
       enableWeb := enableWeb s |}).

Definition setEnableWeb (b : bool) : M unit :=
  modify (fun s =>
    {| userId := userId s; conversations := conversations s;
       activeId := activeId s; messages := messages s; input := input s;
       sending := sending s; pendingQuery := pendingQuery s;
       attachments := attachments s; selectedModel := selectedModel s;
       enableWeb := b |}).

(** [disabled] of the send button:
    [sending || (!input.trim() && attachments.length === 0)] *)
Definition send_disabled (st : State) : bool :=
  sending st || (negb (truthy (trim (input st))) && (length (attachments st) =? 0)%nat).

(** **** The preferences kept in [localStorage] *)

Definition key_selectedModel : jsstring := lit "august:selectedModel".
Definition key_enableWeb : jsstring := lit "august:enableWeb".

(** [String(b)] *)
Definition String_of_bool (b : bool) : jsstring :=
  if b then lit "true" else lit "false".

(** The effect that runs once: [getItem] is a lookup, [null] is [None]. *)
Definition loadPreferences (storage : gmap jsstring jsstring) : M unit :=
  let saved := storage !! key_selectedModel in
  when (truthy_opt saved) (setSelectedModel (default [] saved)) ;;
  match storage !! key_enableWeb with
  | Some savedWeb => setEnableWeb (bool_decide (savedWeb = lit "true"))
  | None => ret tt
  end.

(** The effects on [selectedModel] and on [enableWeb]. *)
Definition saveSelectedModel (st : State) (storage : gmap jsstring jsstring)
  : gmap jsstring jsstring :=
  <[key_selectedModel := selectedModel st]> storage.

Definition saveEnableWeb (st : State) (storage : gmap jsstring jsstring)
  : gmap jsstring jsstring :=
  <[key_enableWeb := String_of_bool (enableWeb st)]> storage.

(** The three effects when the component mounts in the state [s0]: all run
    after the first render, the two writing ones with the values of that
    render; the updates of the first one then give the state of the second
    render, after which a writing effect runs again when its dependency
    changed. *)
Definition mountPreferences (storage : gmap jsstring jsstring) (s0 : State)
  : State * gmap jsstring jsstring :=
  let s1 := state_after (loadPreferences storage s0) in
  let storage1 := saveEnableWeb s0 (saveSelectedModel s0 storage) in
  let storage2 :=
    if bool_decide (selectedModel s1 = selectedModel s0) then storage1
    else saveSelectedModel s1 storage1 in
  let storage3 :=
    if bool_decide (enableWeb s1 = enableWeb s0) then storage2
    else saveEnableWeb s1 storage2 in
  (s1, storage3).

(** **** The groups of the sidebar *)

(** What [Date] yields, for valid dates: the local midnight of now and of
    the day of an ISO date, in milliseconds, the long month name and the
    full year of that date. *)
Record Calendar := {
  startOfToday : Z;
  startOfThatDay : jsstring -> Z;
  monthName : jsstring -> jsstring;
  fullYear : jsstring -> Z
}.

Definition day_ms : Z := 1000 * 60 * 60 * 24.

(** [Math.round(x / y)] for integers [x] and [y > 0]: the nearest integer,
    a half going up. *)
Definition round_div (x y : Z) : Z := (2 * x + y) / (2 * y).

(** [`${z}`] for an integer. *)
Definition decimalZ (z : Z) : jsstring :=
  if (z <? 0)%Z then lit "-" ++ decimal (Z.to_N (- z)) else decimal (Z.to_N z).

Definition diffDays (cal : Calendar) (dateIso : jsstring) : Z :=
  round_div (startOfToday cal - startOfThatDay cal dateIso) day_ms.

Definition formatRelativeGroup (cal : Calendar) (dateIso : jsstring) : jsstring :=
  let d := diffDays cal dateIso in
  if (d <=? 0)%Z then lit "Today"
  else if (d =? 1)%Z then lit "Yesterday"
  else if (d <? 7)%Z then decimalZ d ++ lit " days ago"
  else if (d <? 14)%Z then lit "Last week"
  else if (d <? 21)%Z then lit "2 weeks ago"
  else if (d <? 28)%Z then lit "3 weeks ago"
  else monthName cal dateIso ++ lit " " ++ decimalZ (fullYear cal dateIso).

Record Group := { g_label : jsstring; g_items : list Conversation }.

(** [formatRelativeGroup(c.updated_at || c.created_at)] *)
Definition label_of (cal : Calendar) (c : Conversation) : jsstring :=
  formatRelativeGroup cal (or_else (c_updated_at c) (c_created_at c)).

(** [if (currentLabel) groups.push({ label: currentLabel, items: currentItems })] *)
Definition push_current (groups : list Group) (currentLabel : option jsstring)
    (currentItems : list Conversation) : list Group :=
  if truthy_opt currentLabel
  then groups ++ [ {| g_label := default [] currentLabel; g_items := currentItems |} ]
  else groups.

(** One iteration of the loop of [groupedConversations] on [groups],
    [currentLabel] ([None] is [null]) and [currentItems]. *)
Definition group_step (cal : Calendar)
    (acc : list Group * option jsstring * list Conversation) (c : Conversation)
  : list Group * option jsstring * list Conversation :=
  let '(groups, currentLabel, currentItems) := acc in
  let label := label_of cal c in
  if negb (bool_decide (Some label = currentLabel)) then
    (push_current groups currentLabel currentItems, Some label, [c])
  else (groups, currentLabel, currentItems ++ [c]).

Definition groupedConversations (cal : Calendar) (filteredConversations : list Conversation)
  : list Group :=
  let '(groups, currentLabel, currentItems) :=
    fold_left (group_step cal) filteredConversations ([], None, []) in
  push_current groups currentLabel currentItems.

(** **** The confirmation of a deletion *)

(** What the [onClick] of the Delete button leaves: the state, the
    [confirmDeleteId] cell, the ids the store was asked to delete and the
    notices shown. *)
Record DeleteRun := {
  del_state : State;
  del_confirmDeleteId : option jsstring;
  del_requests : list jsstring;
  del_notices : list jsstring
}.

(** The [onClick] of the Delete button, in a render whose state is [st] and
    whose [confirmDeleteId] is given, run on the current state [s]: the
    closure reads [st], the setters act on [s]. [answer] is what the awaited
    delete does; the [error] it may resolve with is not read. *)
Definition confirmDelete (answer : reply unit) (confirmDeleteId : option jsstring)
    (st s : State) : DeleteRun :=
  if negb (truthy_opt confirmDeleteId) then
    {| del_state := s; del_confirmDeleteId := confirmDeleteId;
       del_requests := []; del_notices := [] |}
  else
    let id : jsstring := default [] confirmDeleteId in
    match answer with
    | Rejects e =>
        {| del_state := s; del_confirmDeleteId := None;
           del_requests := [id];
           del_notices := [lit "Failed to delete conversation"] |}
    | Resolves _ _ =>
        let removed :=
          setConversations
            (fun prev => List.filter (fun x => negb (bool_decide (c_id x = id))) prev) in
        let reselect :=
          if bool_decide (activeId st = Some id) then
            let fallback :=
              List.find (fun c => negb (bool_decide (c_id c = id))) (conversations st) in
            setActiveId (c_id <$> fallback) ;; setMessages (fun _ => [])
          else ret tt in
        {| del_state := state_after ((removed ;; reselect) s);
           del_confirmDeleteId := None;
           del_requests := [id]; del_notices := [] |}
    end.

(** **** The text of a PDF *)

(** [content.items.map((it) => it.str ?? '').join(' ')] *)
Definition page_text (items : list (option jsstring)) : jsstring :=
  join (lit " ") (map (default []) items).

(** The loop over the pages from page [i], on [fullText]. *)
Fixpoint pdf_pages (i : N) (pages : list (list (option jsstring)))
    (fullText : jsstring) : jsstring :=
  match pages with
  | [] => fullText
  | items :: rest =>
      pdf_pages (i + 1) rest
        (fullText ++ nl ++ nl ++ lit "--- Page " ++ decimal i ++ lit " ---" ++ nl
         ++ page_text items)
  end.

(** [extractPdfText] on what PDF.js yields: the text items of each page, or
    [None] when anything in the [try] block throws. *)
Definition extractPdfText (document : option (list (list (option jsstring))))
  : jsstring :=
  match document with
  | Some pages => trim (pdf_pages 1 pages [])
  | None => []
  end.

(** *** More vocabulary *)

(** [m] leaves the cell [cell] of the state as it is. *)
Definition keeps {X A} (cell : State -> X) (m : M A) : Prop :=
  forall s, cell (state_after (m s)) = cell s.

(** The conversation inserts and the calls of the edge function, in order. *)
Definition created (evs : list Event) : list (option jsstring) :=
  omap (fun e => match e with InsertConversation u => Some u | _ => None end) evs.

Definition invocations (evs : list Event)
  : list (list ChatMessage * jsstring * bool * option jsstring) :=
  omap (fun e => match e with
                 | Invoke msgs model web auth => Some (msgs, model, web, auth)
                 | _ => None
                 end) evs.

(** The [Authorization] header built from the session token. *)
Definition bearer (accessToken : option jsstring) : option jsstring :=
  if truthy_opt accessToken then Some (lit "Bearer " ++ default [] accessToken)
  else None.

(** The history part of a request. *)
Definition history (prior : list Message) : list ChatMessage :=
  map (fun m => {| role := msg_role m; content := Text (msg_content m) |}) prior.

Definition all_space (s : jsstring) : Prop := Forall (fun c => is_space c = true) s.

(** The awaited call fails: it rejects, or it resolves with an error. *)
Definition fails {A} (r : reply A) : Prop :=
  match r with
  | Rejects _ | Resolves _ (Some _) => True
  | Resolves _ None => False
  end.

(** [m] throws from every state. *)
Definition throws {A} (m : M A) : Prop :=
  forall s, exists e, result (m s) = Throw e.

(** An event that names a conversation names [cid]. *)
Definition about (cid : jsstring) (e : Event) : Prop :=
  match e with
  | InsertMessage c _ _ _ | UpdateTitle c _ => c = cid
  | _ => True
  end.

(** The id of the placeholder shown while the answer is revealed. *)
Definition temp_id (env : SendEnv) : jsstring := lit "temp-" ++ decimal (now env).

(** The active id, when there is one, is the id of a listed conversation. *)
Definition active_is_listed (s : State) : Prop :=
  forall a, activeId s = Some a -> exists c, In c (conversations s) /\ c_id c = a.

(** A group of the sidebar is not empty and holds conversations of its
    label only. *)
Definition well_formed_group (cal : Calendar) (g : Group) : Prop :=
  g_items g <> [] /\ Forall (fun c => label_of cal c = g_label g) (g_items g).


(** A calendar in which today starts at [today] and every date is the day
    that started at [that]. *)
Definition calendar_at (today that : Z) : Calendar :=
  {| startOfToday := today; startOfThatDay := fun _ => that;
     monthName := fun _ => lit "March"; fullYear := fun _ => 2025%Z |}.

End Chat.

(** ** The upload gateway: [openrouter-files/index.ts] *)

Module Files.
Import Gateway.

(** An element of [body.files], of the declared type. *)
Record UploadFileInput := {
  name : jsstring;
  type : jsstring;
  base64 : jsstring
}.

Record Request := {
  method : jsstring;
  Origin : option jsstring;
  Authorization : option jsstring;
  json : option (option (list UploadFileInput))
    (* req.json(): None when it throws, else the body, [files] being optional *)
}.

(** What a step inside the [try] block does: it yields a value, or it
    throws an error [e], kept as [String(e)]. *)
Inductive attempt (A : Type) :=
| Done (a : A)
| Threw (message : jsstring).
Arguments Done {A} a.
Arguments Threw {A} message.

(** The request made for one file: the headers, and the name, the type and
    the bytes of the file in the form. *)
Record UploadRequest := {
  u_url : jsstring;
  u_headers : list (jsstring * jsstring);
  u_file_name : jsstring;
  u_file_type : jsstring;
  u_bytes : list N
}.

Record UploadResponse := {
  u_ok : bool;
  u_text : jsstring;          (* resp.text() *)
  u_json : attempt Json       (* resp.json() *)
}.

(** An element of [results]; an absent key is [None]. *)
Record FileResult := {
  res_name : jsstring;
  res_type : jsstring;
  res_id : option Json;
  res_error : option jsstring
}.

(** A JSON number literal denotes zero when its digits before the exponent
    are all [0]. *)
Fixpoint mantissa (literal : jsstring) : jsstring :=
  match literal with
  | [] => []
  | c :: rest => if ((c =? 101) || (c =? 69))%N then [] else c :: mantissa rest
  end.

Definition zero_literal (literal : jsstring) : bool :=
  forallb (fun c => (c =? 48) || (c =? 45) || (c =? 46))%N (mantissa literal).

(** Truthiness of a value, [None] being [undefined]. *)
Definition truthy_json (v : option Json) : bool :=
  match v with
  | None | Some JNull => false
  | Some (JBool b) => b
  | Some (JNum literal) => negb (zero_literal literal)
  | Some (JStr s) => truthy s
  | Some (JArr _) | Some (JObj _) => true
  end.

(** [a || b] *)
Definition js_or (a b : option Json) : option Json :=
  if truthy_json a then a else b.

(** [json?.id || json?.data?.id || json?.file?.id] *)
Definition extract_id (json : Json) : option Json :=
  js_or (js_or (get_prop (lit "id") (Some json))
               (get_prop (lit "id") (get_prop (lit "data") (Some json))))
        (get_prop (lit "id") (get_prop (lit "file") (Some json))).

Definition upload_request (key : jsstring) (f : UploadFileInput) (binary : list N)
  : UploadRequest :=
  {| u_url := lit "https://openrouter.ai/api/v1/files";
     u_headers :=
       [ (lit "Authorization", lit "Bearer " ++ key);
         (lit "HTTP-Referer", lit "https://example.com");
         (lit "X-Title", lit "August Chat") ];
     u_file_name := or_else (name f) (lit "file");
     u_file_type := or_else (type f) (lit "application/octet-stream");
     u_bytes := map (fun c => (c mod 256)%N) binary |}.

Section Handler.

(** The identity provider, [atob], and the provider of the files API, which
    may answer the [i]-th file of a batch as it likes. *)
Variable getUser : jsstring -> jsstring -> jsstring -> UserReply.
Variable atob : jsstring -> attempt (list N).
Variable fetch : nat -> UploadRequest -> attempt UploadResponse.

(** The body of the loop for the [i]-th file: the result pushed, and the
    request made, if one was. *)
Definition upload (key : jsstring) (i : nat) (f : UploadFileInput)
  : FileResult * list UploadRequest :=
  let failed (message : jsstring) :=
    {| res_name := name f; res_type := type f; res_id := None;
       res_error := Some message |} in
  match atob (base64 f) with
  | Threw message => (failed message, [])
  | Done binary =>
      let rq := upload_request key f binary in
      match fetch i rq with
      | Threw message => (failed message, [rq])
      | Done resp =>
          if negb (u_ok resp) then (failed (u_text resp), [rq])
          else
            match u_json resp with
            | Threw message => (failed message, [rq])
            | Done json =>
                ({| res_name := name f; res_type := type f;
                    res_id := extract_id json; res_error := None |}, [rq])
            end
      end
  end.

(** [JSON.stringify] of a result: a key whose value is [undefined] is left
    out. *)
Definition result_json (r : FileResult) : Json :=
  JObj ([ (lit "name", JStr (res_name r)); (lit "type", JStr (res_type r)) ]
        ++ match res_id r with Some id => [(lit "id", id)] | None => [] end
        ++ match res_error r with
           | Some e => [(lit "error", JStr e)]
           | None => []
           end).

Definition files_response (origin : option jsstring) (results : list FileResult)
  : Response :=
  {| status := 200;
     headers := json_headers origin;
     body := Stringified (JObj [(lit "files", JArr (map result_json results))]) |}.

(** The handler: its response, the results it lists and the requests it
    made. *)
Definition serve (cfg : Config) (req : Request)
  : Response * list FileResult * list UploadRequest :=
  let origin := Origin req in
  if bool_decide (method req = lit "OPTIONS") then
    ({| status := 200; headers := corsHeaders origin; body := Raw (lit "ok") |},
     [], [])
  else
    let accessToken := replace_first (lit "Bearer ") [] <$> Authorization req in
    match accessToken with
    | None | Some [] =>
        (error_response 401 "Missing Authorization header" origin, [], [])
    | Some accessToken =>
        match SUPABASE_URL cfg, SUPABASE_SERVICE_ROLE_KEY cfg,
              OPENROUTER_API_KEY cfg with
        | Some ((_ :: _) as url), Some ((_ :: _) as service_key),
          Some ((_ :: _) as api_key) =>
            let reply := getUser url service_key accessToken in
            if has_error reply || negb (has_user reply) then
              (error_response 401 "Unauthorized" origin, [], [])
            else
              match json req with
              | None => (error_response 400 "Invalid JSON body" origin, [], [])
              | Some b_files =>
                  let files := default [] b_files in
                  let runs := imap (upload api_key) files in
                  (files_response origin (map fst runs), map fst runs,
                   concat (map snd runs))
              end
        | _, _, _ =>
            (error_response 500 "Missing server configuration" origin, [], [])
        end
    end.

End Handler.

(** The request is authenticated and its body parses. *)
Definition uploadable (getUser : jsstring -> jsstring -> jsstring -> UserReply)
    (cfg : Config) (req : Request) (files : list UploadFileInput) : Prop :=
  method req <> lit "OPTIONS"
  /\ (exists auth url service_key api_key,
        Authorization req = Some auth
        /\ truthy (replace_first (lit "Bearer ") [] auth) = true
        /\ SUPABASE_URL cfg = Some url /\ truthy url = true
        /\ SUPABASE_SERVICE_ROLE_KEY cfg = Some service_key
        /\ truthy service_key = true
        /\ OPENROUTER_API_KEY cfg = Some api_key /\ truthy api_key = true
        /\ getUser url service_key (replace_first (lit "Bearer ") [] auth)
           = {| has_user := true; has_error := false |})
  /\ (exists b_files, json req = Some b_files /\ files = default [] b_files).

(** A sample batch: a text file the provider stores, invalid base64, and a
    file the provider refuses. *)
Definition sample_files : list UploadFileInput :=
  [ {| name := lit "a.txt"; type := lit "text/plain"; base64 := lit "YWJj" |};
    {| name := lit "b.bin"; type := []; base64 := lit "***" |};
    {| name := lit "c.pdf"; type := lit "application/pdf"; base64 := lit "JVBERg==" |} ].

Definition sample_request : Request :=
  {| method := lit "POST"; Origin := Some (lit "https://app.example");
     Authorization := Some (lit "Bearer token");
     json := Some (Some sample_files) |}.

Definition sample_atob (data : jsstring) : attempt (list N) :=
  if bool_decide (data = lit "***") then Threw (lit "InvalidCharacterError")
  else Done data.

Definition sample_fetch (i : nat) (rq : UploadRequest) : attempt UploadResponse :=
  if bool_decide (u_file_name rq = lit "c.pdf") then
    Done {| u_ok := false; u_text := lit "too large"; u_json := Threw [] |}
  else
    Done {| u_ok := true; u_text := [];
            u_json := Done (JObj [(lit "data", JObj [(lit "id", JStr (lit "file-1"))])]) |}.

End Files.

(** * Properties of the gateway *)

Module GatewayFacts.
Import Gateway.

Section Negotiation.

Variable fetch : FetchRequest -> UpstreamResponse.
Variable key : jsstring.





End Negotiation.




Lemma serve_negotiates getUser fetch cfg req api_key messages model enableWeb :
  negotiable getUser cfg req api_key messages model enableWeb ->
  serve getUser fetch cfg req
  = conclude (Origin req)
      (negotiate fetch api_key (attempts enableWeb model messages) JNull).
Proof.
  intros [Hm (auth & url & sk & Ha & Ht & Hu & Htu & Hs & Hts & Hg)
          [Hk Htk] (bm & bw & Hj & Hne & -> & ->)].
  unfold serve. rewrite bool_decide_eq_false_2 by exact Hm.
  rewrite Ha. cbn [fmap option_fmap option_map].
  destruct (replace_first (lit "Bearer ") [] auth) as [|c token] eqn:Etok;
    [discriminate|].
  rewrite Hu, Hs, Hk.
  destruct url as [|? ?]; [discriminate|].
  destruct sk as [|? ?]; [discriminate|].
  destruct api_key as [|? ?]; [discriminate|].
  cbn beta iota. rewrite Hg. cbn [has_error has_user orb negb]. rewrite Hj.
  destruct messages as [|m ms]; [congruence|].
  change (default [] (Some (m :: ms))) with (m :: ms).
  cbn [length Nat.eqb]. unfold conclude.
  destruct (negotiate _ _ _ _) as [[[resp|] d] issued]; [|reflexivity].
  destruct (r_json resp); reflexivity.
Qed.



(** The sample exchange: the native flag is refused, the generic tool is
    served, the no-tools shape is never sent. *)
Example sample_exchange :
  serve sample_getUser sample_fetch sample_config sample_request
  = (Responded (content_response None (JStr (lit "Hi there"))),
     map (upstream_request (lit "sk-or-1"))
       [native_flag (lit "google/gemini-2.0-flash-exp:free") sample_messages;
        generic_tool (lit "google/gemini-2.0-flash-exp:free") sample_messages]).
Proof. vm_compute. reflexivity. Qed.

(** Every answer of [serve] is the preflight acknowledgment, one of the
    fixed error objects, or what [conclude] makes of a negotiation. *)
Lemma serve_cases getUser fetch cfg req :
  serve getUser fetch cfg req
    = (Responded {| status := 200; headers := corsHeaders (Origin req);
                    body := Raw (lit "ok") |}, [])
  \/ (exists st msg,
        serve getUser fetch cfg req
        = (Responded (error_response st msg (Origin req)), []))
  \/ (exists api_key messages model enableWeb,
        OPENROUTER_API_KEY cfg = Some api_key
        /\ serve getUser fetch cfg req
           = conclude (Origin req)
               (negotiate fetch api_key (attempts enableWeb model messages) JNull)).
Proof.
  unfold serve.
  destruct (bool_decide (method req = lit "OPTIONS")); [left; reflexivity|].
  right.
  destruct (Authorization req) as [auth|]; cbn [fmap option_fmap option_map];
    [|left; eauto].
  destruct (replace_first (lit "Bearer ") [] auth) as [|c token]; [left; eauto|].
  destruct (SUPABASE_URL cfg) as [[|? url]|]; [left; eauto| |left; eauto].
  destruct (SUPABASE_SERVICE_ROLE_KEY cfg) as [[|? sk]|];
    [left; eauto| |left; eauto].
  destruct (OPENROUTER_API_KEY cfg) as [[|k0 key]|] eqn:Hkey;
    [left; eauto| |left; eauto].
  destruct (_ || _); [left; eauto|].
  destruct (json req) as [[[bmsgs bmodel] bweb]|]; [|left; eauto].
  destruct (length (default [] bmsgs) =? 0)%nat; [left; eauto|].
  right. exists (k0 :: key), (default [] bmsgs),
    (or_else (default [] bmodel) default_model), (default false bweb).
  split; [reflexivity|]. unfold conclude.
  destruct (negotiate _ _ _ _) as [[[resp|] d] issued]; [|reflexivity].
  destruct (r_json resp); reflexivity.
Qed.




End GatewayFacts.

(** * Properties of the chat component *)

Module ChatFacts.
Import Chat.

(** ** Rules for the events and the message list of composed steps *)

Section Rules.

Context {A B : Type}.
Variable P : Event -> Prop.

Lemma emits_ret (a : A) : emits P (ret a).
Proof. intros s. constructor. Qed.

Lemma emits_throw e : emits P (throw (A := A) e).
Proof. intros s. constructor. Qed.

Lemma emits_modify f : emits P (modify f).
Proof. intros s. constructor. Qed.

Lemma emits_emit e : P e -> emits P (emit e).
Proof. intros He s. repeat constructor. exact He. Qed.

Lemma emits_bind (m : M A) (k : A -> M B) :
  emits P m -> (forall a, returns m a -> emits P (k a)) -> emits P (bind m k).
Proof.
  intros Hm Hk s. unfold bind. specialize (Hm s).
  destruct (m s) as [[[a|e] s'] evs] eqn:Em; cbn in Hm |- *; [|exact Hm].
  assert (Ha : returns m a) by (exists s; rewrite Em; reflexivity).
  specialize (Hk a Ha s'). destruct (k a s') as [[r s''] evs']. cbn in Hk |- *.
  apply Forall_app. split; assumption.
Qed.

Lemma emits_try_catch (m : M A) handler :
  emits P m -> (forall e, emits P (handler e)) -> emits P (try_catch m handler).
Proof.
  intros Hm Hh s. unfold try_catch. specialize (Hm s).
  destruct (m s) as [[[a|e] s'] evs]; cbn in Hm |- *; [exact Hm|].
  specialize (Hh e s'). destruct (handler e s') as [[r s''] evs']. cbn in Hh |- *.
  apply Forall_app. split; assumption.
Qed.

Lemma emits_try_finally (m : M A) cleanup :
  emits P m -> emits P cleanup -> emits P (try_finally m cleanup).
Proof.
  intros Hm Hc s. unfold try_finally. specialize (Hm s).
  destruct (m s) as [[r s'] evs]. specialize (Hc s').
  destruct (cleanup s') as [[r' s''] evs']. cbn in Hm, Hc |- *.
  apply Forall_app. split; assumption.
Qed.

Lemma keeps_ret (a : A) : keeps_messages (ret a).
Proof. intros s. reflexivity. Qed.

Lemma keeps_throw e : keeps_messages (throw (A := A) e).
Proof. intros s. reflexivity. Qed.

Lemma keeps_emit e : keeps_messages (emit e).
Proof. intros s. reflexivity. Qed.

Lemma keeps_bind (m : M A) (k : A -> M B) :
  keeps_messages m -> (forall a, returns m a -> keeps_messages (k a)) ->
  keeps_messages (bind m k).
Proof.
  intros Hm Hk s. unfold bind. specialize (Hm s).
  destruct (m s) as [[[a|e] s'] evs] eqn:Em; cbn in Hm |- *; [|exact Hm].
  assert (Ha : returns m a) by (exists s; rewrite Em; reflexivity).
  specialize (Hk a Ha s'). destruct (k a s') as [[r s''] evs']. cbn in Hk |- *.
  congruence.
Qed.

Lemma keeps_try_catch (m : M A) handler :
  keeps_messages m -> (forall e, keeps_messages (handler e)) ->
  keeps_messages (try_catch m handler).
Proof.
  intros Hm Hh s. unfold try_catch. specialize (Hm s).
  destruct (m s) as [[[a|e] s'] evs]; cbn in Hm |- *; [exact Hm|].
  specialize (Hh e s'). destruct (handler e s') as [[r s''] evs']. cbn in Hh |- *.
  congruence.
Qed.

End Rules.

Lemma events_bind {A B} (m : M A) (k : A -> M B) s :
  events (bind m k s)
  = events (m s)
    ++ match result (m s) with
       | Ret a => events (k a (state_after (m s)))
       | Throw _ => []
       end.
Proof.
  unfold bind, events, result, state_after.
  destruct (m s) as [[[a|e] s'] evs]; cbn.
  - destruct (k a s') as [[r s''] evs']. reflexivity.
  - symmetry. apply app_nil_r.
Qed.

Lemma result_bind {A B} (m : M A) (k : A -> M B) s :
  result (bind m k s)
  = match result (m s) with
    | Ret a => result (k a (state_after (m s)))
    | Throw e => Throw e
    end.
Proof.
  unfold bind, events, result, state_after.
  destruct (m s) as [[[a|e] s'] evs]; cbn; [|reflexivity].
  destruct (k a s') as [[r s''] evs']. reflexivity.
Qed.

Lemma events_try_catch {A} (m : M A) handler s :
  events (try_catch m handler s)
  = events (m s)
    ++ match result (m s) with
       | Ret _ => []
       | Throw e => events (handler e (state_after (m s)))
       end.
Proof.
  unfold try_catch, events, result, state_after.
  destruct (m s) as [[[a|e] s'] evs]; cbn.
  - symmetry. apply app_nil_r.
  - destruct (handler e s') as [[r s''] evs']. reflexivity.
Qed.

Lemma events_try_finally {A} (m : M A) cleanup s :
  events (try_finally m cleanup s)
  = events (m s) ++ events (cleanup (state_after (m s))).
Proof.
  unfold try_finally, events, state_after.
  destruct (m s) as [[r s'] evs]. cbn.
  destruct (cleanup s') as [[r' s''] evs']. reflexivity.
Qed.

Lemma emits_when P b m : emits P m -> emits P (when b m).
Proof. destruct b; [auto | intros _; apply emits_ret]. Qed.

Lemma emits_await {A} P request (r : reply A) : P request -> emits P (await request r).
Proof.
  intros Hr. unfold await. apply emits_bind; [apply emits_emit, Hr|].
  intros _ _. destruct r; [apply emits_ret | apply emits_throw].
Qed.

Lemma keeps_when b m : keeps_messages m -> keeps_messages (when b m).
Proof. destruct b; [auto | intros _; apply keeps_ret]. Qed.

Lemma keeps_await {A} request (r : reply A) : keeps_messages (await request r).
Proof.
  unfold await. apply keeps_bind; [apply keeps_emit|].
  intros _ _. destruct r; [apply keeps_ret | apply keeps_throw].
Qed.

Lemma emits_weaken {A} (P Q : Event -> Prop) (m : M A) :
  (forall e, P e -> Q e) -> emits P m -> emits Q m.
Proof. intros HPQ Hm s. eapply Forall_impl; [apply Hm | exact HPQ]. Qed.

(** The setters other than [setMessages] are [modify] on another cell. *)
Ltac step_rule :=
  first
    [ apply emits_ret | apply emits_throw | apply emits_modify
    | apply emits_when | apply emits_await | apply emits_emit
    | apply emits_try_catch | apply emits_try_finally
    | apply emits_bind; [|intros ? ?]
    | match goal with
      | |- emits _ (match ?x with _ => _ end) => destruct x
      end ].

Lemma play_emits P tempId slices :
  Forall (fun p => P (Tick p)) slices -> emits P (play tempId slices).
Proof.
  induction 1 as [|p rest Hp _ IH]; cbn [play]; repeat step_rule; auto.
Qed.

(** Nothing is shown or stored for an empty answer. *)
Lemma show_assistant_emits P env cid text :
  (truthy text = true ->
   Forall (fun p => P (Tick p)) (reveal text)
   /\ P (InsertMessage cid assistant text None)) ->
  emits P (show_assistant env cid text).
Proof.
  intros Hshown. unfold show_assistant, when.
  destruct (truthy text); [|apply emits_ret].
  destruct (Hshown eq_refl) as [Ht Hi].
  repeat step_rule; auto using play_emits.
Qed.

Lemma ensureConversation_emits P env st :
  (forall u, P (InsertConversation u)) -> emits P (ensureConversation env st).
Proof.
  intros HP. unfold ensureConversation.
  destruct (truthy_opt (activeId st)); [apply emits_ret|].
  repeat step_rule; auto.
Qed.

Lemma ensureConversation_returns env st cid :
  returns (ensureConversation env st) cid -> conversation_of env st = Some cid.
Proof.
  intros [s Hs]. revert Hs. unfold ensureConversation, conversation_of.
  destruct (activeId st) as [[|c a]|]; cbn [truthy_opt truthy].
  2:{ cbn. congruence. }
  all: destruct (conversation_insert env) as [[newId|] [e|]|e]; cbn; congruence.
Qed.

Lemma persist_user_emits P env cid content atts :
  (forall c m, P (InsertMessage cid user c m)) ->
  emits P (persist_user env cid content atts).
Proof.
  intros HP. unfold persist_user, insert_user.
  repeat step_rule; auto.
Qed.

Lemma title_conversation_emits P env st cid content :
  P (UpdateTitle cid (summarized content)) ->
  emits P (title_conversation env st cid content).
Proof. intros HP. unfold title_conversation. repeat step_rule; auto. Qed.

Lemma ask_gateway_emits P env st content :
  P GetSession -> (forall m md w a, P (Invoke m md w a)) ->
  emits P (ask_gateway env st content).
Proof.
  intros H1 H2. unfold ask_gateway. repeat step_rule; auto.
Qed.

Lemma ask_gateway_returns env st content text :
  returns (ask_gateway env st content) text ->
  exists response, gateway env = Resolves response None
                   /\ text = answer_text response.
Proof.
  intros [s Hs]. revert Hs.
  unfold ask_gateway, await, bind, emit, ret, throw, result.
  destruct (session env) as [tok err|e]; cbn; [|discriminate].
  destruct (gateway env) as [response [e|]|e]; cbn; try discriminate.
  intros [= <-]. eauto.
Qed.

(** ** The events of a send *)

(** The events of a send all satisfy [P] when the requests it can make do. *)
Lemma handleSend_emits P env st :
  let content :=
    userMessageContent (trim (default (input st) (pendingQuery st))) (attachments st) in
  (forall u, P (InsertConversation u)) ->
  (forall cid c m, conversation_of env st = Some cid -> P (InsertMessage cid user c m)) ->
  (forall cid, P (UpdateTitle cid (summarized content))) ->
  P GetSession -> (forall m md w a, P (Invoke m md w a)) ->
  (forall cid response,
     gateway env = Resolves response None ->
     truthy (answer_text response) = true ->
     Forall (fun p => P (Tick p)) (reveal (answer_text response))
     /\ P (InsertMessage cid assistant (answer_text response) None)) ->
  (forall e, P (ConsoleError e)) -> (forall m, P (Alert m)) ->
  emits P (handleSend env st).
Proof.
  intros content H1 H2 H3 H4 H5 H6 H7 H8. unfold handleSend.
  destruct (_ || _); [apply emits_ret|].
  unfold send_turn. fold content.
  repeat first
    [ match goal with
      | |- emits _ (ensureConversation _ _) => apply ensureConversation_emits
      | |- emits _ (show_assistant _ _ _) => apply show_assistant_emits
      | |- forall _ : Err, emits _ _ => intro
      | H : returns (ensureConversation _ _) _ |- _ =>
          apply ensureConversation_returns in H
      | H : returns (ask_gateway _ _ _) _ |- _ =>
          apply ask_gateway_returns in H; destruct H as (response & Hg & ->)
      end
    | step_rule ]; auto.
Qed.

Lemma ensureConversation_result env st s :
  result (ensureConversation env st s)
  = match conversation_of env st with
    | Some cid => Ret cid
    | None => match conversation_insert env with
              | Resolves _ (Some e) | Rejects e => Throw e
              | _ => Throw (lit "Failed to create conversation")
              end
    end.
Proof.
  unfold ensureConversation, conversation_of.
  destruct (activeId st) as [[|c a]|]; cbn [truthy_opt truthy]; try reflexivity.
  all: destruct (conversation_insert env) as [[newId|] [e|]|e]; reflexivity.
Qed.








Lemma summarized_cases content :
  (length content <= 60 /\ summarized content = content)
  \/ (60 < length content
      /\ summarized content = take 57 content ++ ellipsis
      /\ length (summarized content) = 58).
Proof.
  unfold summarized. destruct (Nat.ltb_spec 60 (length content)) as [Hlt|Hle].
  - right. repeat split; [exact Hlt|].
    rewrite length_app, length_take. cbn [ellipsis length]. lia.
  - left. split; [exact Hle | reflexivity].
Qed.

(** C7, as amended. A title written by a send is the user-message content
    itself when that has at most 60 characters; otherwise it is the first
    57 characters followed by the one-character ellipsis, 58 characters in
    all. *)
Theorem title_is_summary env st title :
  In title (titles (events (handleSend env st st))) ->
  let content :=
    userMessageContent (trim (default (input st) (pendingQuery st))) (attachments st) in
  (length content <= 60 /\ title = content)
  \/ (60 < length content
      /\ title = take 57 content ++ ellipsis /\ length title = 58).
Proof.
  intros Hin content.
  assert (Hall : Forall (titled_with (summarized content))
                   (events (handleSend env st st))).
  { apply handleSend_emits; cbn; auto.
    intros. split; [apply Forall_forall|]; auto. }
  apply list_elem_of_In, list_elem_of_omap in Hin.
  destruct Hin as (e & He & Hte).
  rewrite Forall_forall in Hall. specialize (Hall e He).
  destruct e; try discriminate. cbn in Hall, Hte.
  injection Hte as <-. subst title0. apply summarized_cases.
Qed.


(** ** The typing effect *)






Lemma play_run tempId slices s :
  result (play tempId slices s) = Ret tt
  /\ events (play tempId slices s) = map Tick slices.
Proof.
  revert s. induction slices as [|p rest IH]; intros s; [split; reflexivity|].
  cbn [play]. rewrite !result_bind, !events_bind.
  cbn [emit setMessages modify result events state_after fst snd app].
  destruct (IH (state_after (setMessages (map (set_content tempId p)) s)))
    as [Hr He].
  unfold setMessages, modify, state_after in Hr, He. cbn [fst snd] in Hr, He.
  rewrite Hr, He. split; reflexivity.
Qed.


(** The block returns, unless the store call of a shown answer rejects. *)
Lemma show_assistant_result env cid text s :
  result (show_assistant env cid text s)
  = match assistant_insert env with
    | Rejects e => if truthy text then Throw e else Ret tt
    | Resolves _ _ => Ret tt
    end.
Proof.
  unfold show_assistant, when. destruct (truthy text).
  2:{ destruct (assistant_insert env); reflexivity. }
  rewrite result_bind. cbn [setMessages modify result state_after fst snd].
  rewrite result_bind.
  match goal with |- context [play ?t ?l ?s'] =>
    destruct (play_run t l s') as [Hr _] end.
  rewrite Hr. unfold await. rewrite !result_bind.
  cbn [emit result state_after fst snd].
  destruct (assistant_insert env) as [[m|] e|e]; reflexivity.
Qed.




(** ** The request sent to the model *)








(** ** File batches *)

Lemma state_after_bind {A B} (m : M A) (k : A -> M B) s :
  state_after (bind m k s)
  = match result (m s) with
    | Ret a => state_after (k a (state_after (m s)))
    | Throw _ => state_after (m s)
    end.
Proof.
  unfold bind, result, state_after.
  destruct (m s) as [[[a|e] s'] evs]; cbn [fst snd]; [|reflexivity].
  destruct (k a s') as [[r s''] evs']. reflexivity.
Qed.

Lemma when_emit_run b e s :
  when b (emit e) s = (Ret tt, s, if b then [e] else []).
Proof. destruct b; reflexivity. Qed.

Lemma notices_app evs evs' : notices (evs ++ evs') = notices evs ++ notices evs'.
Proof. apply omap_app. Qed.

Lemma process_run todo next s :
  result (process todo next s)
  = Ret (next ++ map (fun f => fst (read_item f))
                   (List.filter (fun f => negb (too_large f)) todo))
  /\ state_after (process todo next s) = s
  /\ notices (events (process todo next s))
     = map too_large_notice (List.filter too_large todo).
Proof.
  revert next s. induction todo as [|f rest IH]; intros next s.
  - cbn [process List.filter map]. rewrite app_nil_r. repeat split; reflexivity.
  - cbn [process List.filter].
    change (maxBytes <? file_size f)%N with (too_large f).
    destruct (too_large f); cbn [negb].
    + rewrite result_bind, state_after_bind, events_bind, notices_app.
      change (result (alert (too_large_notice f) s)) with (Ret (A := unit) tt).
      change (state_after (alert (too_large_notice f) s)) with s.
      destruct (IH next s) as (Hr & Hs & He). rewrite Hr, Hs, He.
      repeat split; reflexivity.
    + cbn [map]. destruct (read_item f) as [item warned]. cbn [fst].
      rewrite result_bind, state_after_bind, events_bind, notices_app.
      rewrite when_emit_run.
      cbn [result state_after events fst snd].
      destruct (IH (next ++ [item]) s) as (Hr & Hs & He). rewrite Hr, Hs, He.
      rewrite <- app_assoc. repeat split; try reflexivity.
      destruct warned; reflexivity.
Qed.



(** ** An empty answer *)

Lemma state_after_try_catch {A} (m : M A) handler s :
  state_after (try_catch m handler s)
  = match result (m s) with
    | Ret _ => state_after (m s)
    | Throw e => state_after (handler e (state_after (m s)))
    end.
Proof.
  unfold try_catch, result, state_after.
  destruct (m s) as [[[a|e] s'] evs]; cbn [fst snd]; [reflexivity|].
  destruct (handler e s') as [[r s''] evs']. reflexivity.
Qed.

Lemma state_after_try_finally {A} (m : M A) cleanup s :
  state_after (try_finally m cleanup s) = state_after (cleanup (state_after (m s))).
Proof.
  unfold try_finally, state_after.
  destruct (m s) as [[r s'] evs]. cbn [fst snd].
  destruct (cleanup s') as [[r' s''] evs']. reflexivity.
Qed.

Lemma keeps_modify_other f :
  (forall s, messages (f s) = messages s) -> keeps_messages (modify f).
Proof. intros Hf s. apply Hf. Qed.

Ltac keeps_rule :=
  first
    [ apply keeps_ret | apply keeps_throw | apply keeps_emit
    | apply keeps_when | apply keeps_await | apply keeps_try_catch
    | apply keeps_modify_other; intros; reflexivity
    | apply keeps_bind; [|intros ? ?]
    | match goal with
      | |- keeps_messages (match ?x with _ => _ end) => destruct x
      end ].

Lemma ensureConversation_keeps env st : keeps_messages (ensureConversation env st).
Proof.
  unfold ensureConversation. destruct (truthy_opt (activeId st)); repeat keeps_rule.
Qed.

Lemma persist_user_messages env cid content atts s :
  adds_user_row_at_most env (messages s)
    (messages (state_after (persist_user env cid content atts s))).
Proof.
  unfold persist_user, insert_user, await, adds_user_row_at_most, user_row.
  destruct (user_insert env) as [[m|] [e|]|e] eqn:E1;
    destruct atts as [|a atts];
    try destruct (user_insert_fallback env) as [[m'|] e'|e'] eqn:E2;
    cbn; eauto 8.
Qed.

(** After the user message, an empty answer leaves the list alone. *)
Lemma rest_keeps env st cid content response :
  gateway env = Resolves response None -> answer_text response = [] ->
  keeps_messages
    (title_conversation env st cid content ;;
     assistantText <- ask_gateway env st content ;;
     show_assistant env cid assistantText).
Proof.
  intros Hg Hempty. unfold title_conversation.
  repeat first
    [ match goal with
      | H : returns (ask_gateway _ _ _) _ |- _ =>
          apply ask_gateway_returns in H; destruct H as (r & Hr & ->);
          assert (r = response) by congruence; subst r; rewrite Hempty
      | |- keeps_messages (show_assistant _ _ []) => apply keeps_ret
      end
    | keeps_rule ].
Qed.

(** C10. When the edge function answers with an empty content, the send
    shows no slice and asks the store for no assistant message, and the
    message list ends as it was or with the stored user row added: no
    placeholder, no assistant message. *)
Theorem empty_answer_adds_no_assistant env st response :
  gateway env = Resolves response None ->
  answer_text response = [] ->
  let run := handleSend env st st in
  Forall no_assistant_output (events run)
  /\ adds_user_row_at_most env (messages st) (messages (state_after run)).
Proof.
  intros Hg Hempty run. subst run. split.
  - apply handleSend_emits; cbn; auto.
    intros cid r Hr. assert (r = response) by congruence. subst r.
    rewrite Hempty. discriminate.
  - unfold handleSend. destruct (_ || _); [left; reflexivity|].
    rewrite state_after_bind.
    cbn [setSending modify result state_after fst snd].
    rewrite state_after_try_finally.
    assert (Hclean : keeps_messages
              (setSending false ;; setAttachments (fun _ => [])))
      by (intros s; reflexivity).
    rewrite (Hclean _). clear Hclean.
    rewrite state_after_try_catch.
    set (s1 := state_after (setSending true st)).
    assert (Hturn : adds_user_row_at_most env (messages st)
              (messages (state_after
                 (send_turn env st (trim (default (input st) (pendingQuery st))) s1)))).
    { unfold send_turn. rewrite state_after_bind.
      pose proof (ensureConversation_keeps env st s1) as He.
      destruct (result (ensureConversation env st s1)) as [cid|e];
        [|left; exact He].
      set (s2 := state_after (ensureConversation env st s1)) in *.
      rewrite state_after_bind. cbn [setInput modify result state_after fst snd].
      rewrite state_after_bind.
      match goal with |- context [result (when ?b ?m ?s)] =>
        assert (Hw : result (when b m s) = Ret tt
                     /\ messages (state_after (when b m s)) = messages s2)
          by (destruct b; split; first [reflexivity | exact He]);
        destruct Hw as [Hw1 Hw2]; rewrite Hw1;
        set (s3 := state_after (when b m s)) in *
      end.
      rewrite state_after_bind.
      pose proof (persist_user_messages env cid
                    (userMessageContent (trim (default (input st) (pendingQuery st)))
                       (attachments st)) (attachments st) s3) as Hp.
      rewrite Hw2, He in Hp.
      destruct (result (persist_user _ _ _ _ s3)); [|exact Hp].
      rewrite (rest_keeps env st cid _ response Hg Hempty). exact Hp. }
    destruct (result _) as [|e]; [exact Hturn|].
    assert (Hhandler : keeps_messages
              (emit (ConsoleError e) ;; alert (lit "Failed to send message")))
      by (intros s; reflexivity).
    rewrite (Hhandler _). exact Hturn.
Qed.

(** ** A failed insert of the user message *)

Lemma notices_quiet evs : Forall not_alert evs -> notices evs = [].
Proof.
  induction 1 as [|e evs He _ IH]; [reflexivity|].
  unfold notices in *. cbn [omap list_omap]. rewrite IH.
  destruct e; try reflexivity. contradiction.
Qed.






Lemma title_conversation_returns env st cid content s data error :
  title_update env = Resolves data error ->
  result (title_conversation env st cid content s) = Ret tt.
Proof.
  intros Ht. unfold title_conversation, await. rewrite Ht.
  destruct (negb (has_title st)); reflexivity.
Qed.


(** ** Sample runs *)

(** The first scenario of the specification: ["Hello"] in a fresh session. *)
Example hello_turn :
  events first_turn
  = [ InsertConversation (Some (lit "u1"));
      InsertMessage (lit "c1") user (lit "Hello") None;
      UpdateTitle (lit "c1") (lit "Hello");
      GetSession;
      Invoke [ {| role := user; content := Text (lit "Hello") |} ]
        (lit "openai/gpt-oss-20b:free") false (Some (lit "Bearer token")) ]
    ++ map Tick (reveal (lit "Hi there"))
    ++ [ InsertMessage (lit "c1") assistant (lit "Hi there") None ]
  /\ map msg_content (messages (state_after first_turn))
     = [lit "Hello"; lit "Hi there"].
Proof. vm_compute. split; reflexivity. Qed.


Example trim_strips_both_ends :
  trim ([9; 32; 160]%N ++ lit "a b" ++ [32; 10; 8232]%N) = lit "a b".
Proof. reflexivity. Qed.

(** The other case: text and no attachment. *)
Example trimmed_text_is_persisted :
  inserted_contents user
    (events (handleSend (accepting (lit "Hello") (lit "ok"))
               (typed (lit "  Hello ") fresh) (typed (lit "  Hello ") fresh)))
  = [lit "Hello"].
Proof. vm_compute. reflexivity. Qed.

Lemma title_is_summary_witness :
  let st := typed long_text fresh in
  let env := accepting long_text (lit "ok") in
  let title := take 57 long_text ++ ellipsis in
  let content :=
    userMessageContent (trim (default (input st) (pendingQuery st))) (attachments st) in
  In title (titles (events (handleSend env st st)))
  /\ ((length content <= 60 /\ title = content)
      \/ (60 < length content
          /\ title = take 57 content ++ ellipsis /\ length title = 58)).
Proof.
  intros st env title content.
  assert (Hin : In title (titles (events (handleSend env st st))))
    by (vm_compute; left; reflexivity).
  split; [exact Hin|].
  exact (title_is_summary env st title Hin).
Defined.

(** A candidate of 61 characters is not cut at 60 characters: the title is
    its first 57 characters and the ellipsis, 58 characters in all. *)
Lemma title_truncation_counterexample :
  let st := typed long_text fresh in
  let env := accepting long_text (lit "ok") in
  60 < length long_text
  /\ titles (events (handleSend env st st)) = [take 57 long_text ++ ellipsis]
  /\ take 57 long_text ++ ellipsis <> take 60 long_text ++ ellipsis
  /\ length (take 57 long_text ++ ellipsis) <> 60.
Proof.
  intros st env. split; [vm_compute; lia|]. split; [vm_compute; reflexivity|].
  split; [vm_compute; discriminate | vm_compute; discriminate].
Qed.


Lemma empty_answer_witness :
  let env := accepting (lit "Hello") [] in
  let st := typed (lit "Hello") fresh in
  let run := handleSend env st st in
  gateway env = Resolves (Some (Some [])) None
  /\ answer_text (Some (Some [])) = []
  /\ Forall no_assistant_output (events run)
  /\ adds_user_row_at_most env (messages st) (messages (state_after run)).
Proof.
  intros env st run. split; [reflexivity|]. split; [reflexivity|].
  apply (empty_answer_adds_no_assistant env st (Some (Some []))); reflexivity.
Defined.

Example empty_answer_run :
  let env := accepting (lit "Hello") [] in
  let st := typed (lit "Hello") fresh in
  map msg_content (messages (state_after (handleSend env st st))) = [lit "Hello"]
  /\ result (handleSend env st st) = Ret tt
  /\ notices (events (handleSend env st st)) = [].
Proof. vm_compute. repeat split; reflexivity. Qed.



(** With an attachment, the failed insert is repeated at once. *)
Example failed_user_insert_is_retried :
  let env := rejecting_user_insert (lit "Hi there") in
  inserted_contents user (events (handleSend env with_note with_note))
  = [lit "Attached files: note.txt"; lit "Attached files: note.txt"].
Proof. vm_compute. reflexivity. Qed.

(** C3. The title is not kept: the first turn stores the title ["Hello"];
    the list of conversations in memory still has a null title for the
    conversation, so the second turn of the session writes the title
    ["Bye"] over it. *)
Theorem second_send_overwrites_title :
  table_after_first_turn !! lit "c1" = Some (Some (lit "Hello"))
  /\ map c_title (conversations (state_after first_turn)) = [None]
  /\ titles (events second_turn) = [lit "Bye"]
  /\ apply_log (accepting (lit "Bye") (lit "See you")) (events second_turn)
       table_after_first_turn !! lit "c1"
     = Some (Some (lit "Bye")).
Proof. vm_compute. repeat split; reflexivity. Qed.

(** Once the list of conversations has been loaded again, the title is in
    memory and a send leaves it alone. *)
Example loaded_title_is_kept :
  let loaded :=
    state_after
      (setConversations
         (fun _ => [ {| c_id := lit "c1"; c_user_id := Some (lit "u1");
                        c_title := Some (lit "Hello");
                        c_created_at := lit "2025-01-01T00:00:00.000Z";
                        c_updated_at := lit "2025-01-01T00:00:00.000Z" |} ])
         (typed (lit "Bye") (state_after first_turn))) in
  titles (events (handleSend (accepting (lit "Bye") (lit "See you")) loaded loaded))
  = [].
Proof. vm_compute. reflexivity. Qed.


(** Five steps for five characters, 239 for 239, and 120 again for 240. *)
Example reveal_steps :
  reveal (lit "Hello")
  = [lit "H"; lit "He"; lit "Hel"; lit "Hell"; lit "Hello"]
  /\ length (reveal (repeat 97%N 239)) = 239
  /\ length (reveal (repeat 97%N 240)) = 120.
Proof. vm_compute. repeat split; reflexivity. Qed.

(** Seven files selected with three attached: two accepted, the second one
    too large; one attachment is added and two notices are shown. *)
Example batch_over_limit :
  let big := {| file_name := lit "big.bin"; file_type := []; file_size := 10485761;
                file_uuid := lit "0003"; file_dataURL := None; file_ocr := [];
                file_text := None; file_pdf := []; file_docx := [] |} in
  let st := state_after
              (handleFiles fresh (map small_file ["a.txt"; "b.txt"; "c.txt"]%string)
                 fresh) in
  let run := handleFiles st
               (small_file "d.txt" :: big :: map small_file ["e.txt"; "f.txt"]%string)
               st in
  map a_name (attachments (state_after run))
  = map lit ["a.txt"; "b.txt"; "c.txt"; "d.txt"]%string
  /\ notices (events run) = [too_many_notice; too_large_notice big].
Proof. vm_compute. split; reflexivity. Qed.

End ChatFacts.

(** * Further properties of the gateway *)

Module GatewayMore.
Import Gateway GatewayFacts.

(** The requests of a negotiation are the first attempts, in order. *)
Lemma negotiate_sent_prefix fetch key todo start :
  snd (negotiate fetch key todo start) `prefix_of` map (upstream_request key) todo.
Proof.
  revert start. induction todo as [|p todo IH]; intros start; cbn [negotiate map].
  - reflexivity.
  - destruct (ok (fetch (upstream_request key p))).
    + cbn. apply prefix_cons, prefix_nil.
    + specialize (IH (detail_of (fetch (upstream_request key p)))).
      destruct (negotiate fetch key todo _) as [[resp d] issued]. cbn in *.
      now apply prefix_cons.
Qed.

(** What [serve] does to a request it does not answer at once. *)
Lemma serve_sends getUser fetch cfg req :
  snd (serve getUser fetch cfg req) <> [] ->
  exists api_key messages model enableWeb,
    negotiable getUser cfg req api_key messages model enableWeb.
Proof.
  unfold serve.
  destruct (bool_decide (method req = lit "OPTIONS")) eqn:Em; [intros []; reflexivity|].
  apply bool_decide_eq_false in Em.
  destruct (Authorization req) as [auth|] eqn:Ea; cbn [fmap option_fmap option_map];
    [|intros []; reflexivity].
  destruct (replace_first (lit "Bearer ") [] auth) as [|c token] eqn:Et;
    [intros []; reflexivity|].
  destruct (SUPABASE_URL cfg) as [[|u0 url]|] eqn:Eu; try (intros []; reflexivity).
  destruct (SUPABASE_SERVICE_ROLE_KEY cfg) as [[|s0 sk]|] eqn:Es;
    try (intros []; reflexivity).
  destruct (OPENROUTER_API_KEY cfg) as [[|k0 key]|] eqn:Ek;
    try (intros []; reflexivity).
  destruct (getUser (u0 :: url) (s0 :: sk) (c :: token)) as [hu he] eqn:Eg.
  cbn [has_error has_user].
  destruct he; cbn [orb]; [intros []; reflexivity|].
  destruct hu; cbn [negb]; [|intros []; reflexivity].
  destruct (json req) as [[[bmsgs bmodel] bweb]|] eqn:Ej; [|intros []; reflexivity].
  destruct bmsgs as [[|m ms]|]; cbn [default from_option id length Nat.eqb];
    try (intros []; reflexivity).
  intros _. exists (k0 :: key), (m :: ms),
    (or_else (default [] bmodel) default_model), (default false bweb).
  constructor.
  - exact Em.
  - exists auth, (u0 :: url), (s0 :: sk). rewrite Et. repeat split; auto.
  - split; [exact Ek | reflexivity].
  - exists bmodel, bweb. repeat split; auto; discriminate.
Qed.

(** X1. The provider is asked only for a request that is not a preflight,
    whose token the identity provider accepted without error, and whose body
    parsed with a non-empty message list. *)
Theorem provider_only_after_authentication getUser fetch cfg req :
  snd (serve getUser fetch cfg req) <> [] ->
  method req <> lit "OPTIONS"
  /\ (exists auth url service_key,
        Authorization req = Some auth
        /\ SUPABASE_URL cfg = Some url
        /\ SUPABASE_SERVICE_ROLE_KEY cfg = Some service_key
        /\ getUser url service_key (replace_first (lit "Bearer ") [] auth)
           = {| has_user := true; has_error := false |})
  /\ (exists messages b_model b_enableWeb,
        json req = Some (Some messages, b_model, b_enableWeb) /\ messages <> []).
Proof.
  intros Hsent. destruct (serve_sends _ _ _ _ Hsent)
    as (key & msgs & model & web & [Hm (auth & url & sk & Ha & _ & Hu & _ & Hs & _ & Hg)
                                      _ (bm & bw & Hj & Hne & _)]).
  split; [exact Hm|]. split; eauto 10.
Qed.

Lemma provider_only_after_authentication_witness :
  snd (serve sample_getUser sample_fetch sample_config sample_request) <> []
  /\ method sample_request <> lit "OPTIONS"
  /\ (exists auth url service_key,
        Authorization sample_request = Some auth
        /\ SUPABASE_URL sample_config = Some url
        /\ SUPABASE_SERVICE_ROLE_KEY sample_config = Some service_key
        /\ sample_getUser url service_key (replace_first (lit "Bearer ") [] auth)
           = {| has_user := true; has_error := false |})
  /\ (exists messages b_model b_enableWeb,
        json sample_request = Some (Some messages, b_model, b_enableWeb)
        /\ messages <> []).
Proof.
  assert (Hsent : snd (serve sample_getUser sample_fetch sample_config sample_request)
                  <> []) by (vm_compute; discriminate).
  split; [exact Hsent|].
  exact (provider_only_after_authentication _ _ _ _ Hsent).
Defined.

(** X2. Every request to the provider is a POST to the completions URL under
    the configured key, with the model and the messages of the body, not
    streamed; it declares a web search only when the body asks for it. *)
Theorem upstream_requests_wellformed getUser fetch cfg req rq :
  In rq (snd (serve getUser fetch cfg req)) ->
  exists api_key b_messages b_model b_enableWeb,
    OPENROUTER_API_KEY cfg = Some api_key
    /\ json req = Some (b_messages, b_model, b_enableWeb)
    /\ rq = upstream_request api_key (f_body rq)
    /\ assoc (lit "Authorization") (f_headers rq) = Some (lit "Bearer " ++ api_key)
    /\ p_model (f_body rq) = or_else (default [] b_model) default_model
    /\ p_messages (f_body rq) = default [] b_messages
    /\ p_stream (f_body rq) = false
    /\ (b_enableWeb = Some true
        \/ (p_web_search (f_body rq) = None /\ p_tools (f_body rq) = None)).
Proof.
  intros Hin.
  assert (Hsent : snd (serve getUser fetch cfg req) <> [])
    by (intros E; rewrite E in Hin; contradiction).
  destruct (serve_sends _ _ _ _ Hsent)
    as (key & msgs & model & web & Hreq).
  rewrite (serve_negotiates _ fetch _ _ _ _ _ _ Hreq) in Hin.
  destruct Hreq as [_ _ [Hk _] (bm & bw & Hj & _ & -> & ->)].
  assert (Hsub : In rq (map (upstream_request key) (attempts (default false bw)
                   (or_else (default [] bm) default_model) msgs))).
  { pose proof (negotiate_sent_prefix fetch key
                  (attempts (default false bw) (or_else (default [] bm) default_model) msgs)
                  JNull) as [rest Hrest].
    unfold conclude in Hin.
    destruct (negotiate fetch key _ JNull) as [[[resp|] d] issued];
      cbn [snd] in Hin, Hrest; rewrite Hrest; apply in_or_app; left; exact Hin. }
  apply in_map_iff in Hsub as (p & <- & Hp).
  exists key, (Some msgs), bm, bw. split; [exact Hk|]. split; [exact Hj|].
  split; [reflexivity|]. split; [reflexivity|].
  unfold attempts in Hp. apply in_app_or in Hp as [Hp | [<- | []]].
  - destruct bw as [[|]|]; cbn [default from_option id] in Hp; try contradiction.
    destruct (startsWith _ _); cbn in Hp;
      repeat match goal with H : _ \/ _ |- _ => destruct H as [<- | H] end;
      try contradiction; repeat split; auto.
  - repeat split; auto.
Qed.

Lemma upstream_requests_wellformed_witness :
  let rq := upstream_request (lit "sk-or-1")
              (native_flag (lit "google/gemini-2.0-flash-exp:free") sample_messages) in
  In rq (snd (serve sample_getUser sample_fetch sample_config sample_request))
  /\ exists api_key b_messages b_model b_enableWeb,
    OPENROUTER_API_KEY sample_config = Some api_key
    /\ json sample_request = Some (b_messages, b_model, b_enableWeb)
    /\ rq = upstream_request api_key (f_body rq)
    /\ assoc (lit "Authorization") (f_headers rq) = Some (lit "Bearer " ++ api_key)
    /\ p_model (f_body rq) = or_else (default [] b_model) default_model
    /\ p_messages (f_body rq) = default [] b_messages
    /\ p_stream (f_body rq) = false
    /\ (b_enableWeb = Some true
        \/ (p_web_search (f_body rq) = None /\ p_tools (f_body rq) = None)).
Proof.
  intros rq.
  assert (Hin : In rq (snd (serve sample_getUser sample_fetch sample_config
                              sample_request))) by (vm_compute; left; reflexivity).
  split; [exact Hin|].
  exact (upstream_requests_wellformed _ _ _ _ rq Hin).
Defined.

(** X3. The provider is asked at most three times for one request: three
    times at most for a [google/] model with web answering, twice for
    another model with web answering, once otherwise. *)
Theorem attempts_are_bounded getUser fetch cfg req :
  length (snd (serve getUser fetch cfg req))
  <= match json req with
     | Some (_, b_model, Some true) =>
         if startsWith (or_else (default [] b_model) default_model) (lit "google/")
         then 3 else 2
     | _ => 1
     end.
Proof.
  destruct (serve_cases getUser fetch cfg req)
    as [Hs | [(st & msg & Hs) | _]];
    try (rewrite Hs; cbn [snd length];
         destruct (json req) as [[[? ?] [[|]|]]|]; try destruct (startsWith _ _); lia).
  destruct (snd (serve getUser fetch cfg req)) as [|rq0 sent0] eqn:E.
  { cbn [length].
    destruct (json req) as [[[? ?] [[|]|]]|]; try destruct (startsWith _ _); lia. }
  assert (Hsent : snd (serve getUser fetch cfg req) <> [])
    by (rewrite E; discriminate).
  rewrite <- E. clear E rq0 sent0.
  destruct (serve_sends _ _ _ _ Hsent) as (key & msgs & model & web & Hreq).
  rewrite (serve_negotiates _ fetch _ _ _ _ _ _ Hreq).
  destruct Hreq as [_ _ _ (bm & bw & -> & _ & -> & ->)].
  pose proof (negotiate_sent_prefix fetch key
                (attempts (default false bw) (or_else (default [] bm) default_model) msgs)
                JNull) as Hpre.
  apply prefix_length in Hpre. rewrite length_map in Hpre.
  assert (Hc : forall n, snd (conclude (Origin req) n) = snd n)
    by (intros [[[r|] d] i]; reflexivity).
  rewrite Hc. etransitivity; [exact Hpre|].
  unfold attempts. destruct bw as [[|]|]; cbn [default from_option id];
    try destruct (startsWith _ _); cbn; lia.
Qed.





End GatewayMore.

(** * Properties of the upload gateway *)

Module FilesFacts.
Import Gateway Files.

Section Uploads.

Variable getUser : jsstring -> jsstring -> jsstring -> UserReply.
Variable atob : jsstring -> attempt (list N).
Variable fetch : nat -> UploadRequest -> attempt UploadResponse.

Lemma upload_echo key i f :
  res_name (fst (upload atob fetch key i f)) = name f
  /\ res_type (fst (upload atob fetch key i f)) = type f.
Proof.
  unfold upload. destruct (atob (base64 f)) as [binary|e]; [|split; reflexivity].
  destruct (fetch i _) as [resp|e]; [|split; reflexivity].
  destruct (u_ok resp); cbn [negb]; [|split; reflexivity].
  destruct (u_json resp); split; reflexivity.
Qed.

Lemma serve_uploads cfg req files :
  uploadable getUser cfg req files ->
  exists api_key,
    OPENROUTER_API_KEY cfg = Some api_key
    /\ serve getUser atob fetch cfg req
       = (files_response (Origin req) (map fst (imap (upload atob fetch api_key) files)),
          map fst (imap (upload atob fetch api_key) files),
          concat (map snd (imap (upload atob fetch api_key) files))).
Proof.
  intros (Hm & (auth & url & sk & key & Ha & Ht & Hu & Htu & Hs & Hts & Hk & Htk & Hg)
          & (bf & Hj & ->)).
  exists key. split; [exact Hk|]. unfold serve.
  rewrite bool_decide_eq_false_2 by exact Hm.
  rewrite Ha. cbn [fmap option_fmap option_map].
  destruct (replace_first (lit "Bearer ") [] auth) as [|c token]; [discriminate|].
  rewrite Hu, Hs, Hk.
  destruct url as [|? ?]; [discriminate|].
  destruct sk as [|? ?]; [discriminate|].
  destruct key as [|? ?]; [discriminate|].
  cbn beta iota. rewrite Hg. cbn [has_error has_user orb negb]. rewrite Hj.
  reflexivity.
Qed.


(** X6. One failing file does not stop the batch: an authenticated request
    gets status 200 and one result per file, in the order of the files, each
    with the name and the type of its file. *)
Theorem one_result_per_file cfg req files :
  uploadable getUser cfg req files ->
  let '(response, results, _) := serve getUser atob fetch cfg req in
  status response = 200%N
  /\ body response = Stringified (JObj [(lit "files", JArr (map result_json results))])
  /\ map res_name results = map name files
  /\ map res_type results = map type files.
Proof.
  intros Hreq. destruct (serve_uploads cfg req files Hreq) as (key & _ & ->).
  split; [reflexivity|]. split; [reflexivity|].
  assert (Hecho : forall (l : list UploadFileInput) n,
            map res_name (map fst (imap (fun i => upload atob fetch key (n + i)) l))
              = map name l
            /\ map res_type (map fst (imap (fun i => upload atob fetch key (n + i)) l))
               = map type l).
  { induction l as [|f l IH]; intros n; [split; reflexivity|].
    cbn [imap map]. destruct (upload_echo key (n + 0) f) as [-> ->].
    destruct (IH (S n)) as [IHn IHt].
    rewrite (imap_ext _ (fun i => upload atob fetch key (S n + i)))
      by (intros; cbn; f_equal; lia).
    rewrite IHn, IHt. split; reflexivity. }
  apply (Hecho files 0).
Qed.




End Uploads.

Lemma sample_uploadable :
  uploadable sample_getUser sample_config sample_request sample_files.
Proof.
  split; [vm_compute; discriminate|]. split.
  - exists (lit "Bearer token"), (lit "https://project.supabase.co"),
      (lit "service-role"), (lit "sk-or-1").
    vm_compute. repeat split; reflexivity.
  - exists (Some sample_files). split; reflexivity.
Qed.

Lemma one_result_per_file_witness :
  uploadable sample_getUser sample_config sample_request sample_files
  /\ let '(response, results, _) :=
       serve sample_getUser sample_atob sample_fetch sample_config sample_request in
     status response = 200%N
     /\ body response
        = Stringified (JObj [(lit "files", JArr (map result_json results))])
     /\ map res_name results = map name sample_files
     /\ map res_type results = map type sample_files.
Proof.
  split; [exact sample_uploadable|].
  exact (one_result_per_file sample_getUser sample_atob sample_fetch
           sample_config sample_request sample_files sample_uploadable).
Defined.

(** The sample batch: an id for the first file, the error of [atob] for the
    second, the text of the provider for the third; two uploads. *)
Example sample_batch :
  let '(_, results, requests) :=
    serve sample_getUser sample_atob sample_fetch sample_config sample_request in
  map res_id results = [Some (JStr (lit "file-1")); None; None]
  /\ map res_error results
     = [None; Some (lit "InvalidCharacterError"); Some (lit "too large")]
  /\ map u_file_name requests = [lit "a.txt"; lit "c.pdf"].
Proof. vm_compute. repeat split; reflexivity. Qed.


End FilesFacts.

(** * Further properties of the chat component *)

Module ChatMore.
Import Chat ChatFacts.

(** ** Blank input *)

Lemma trimStart_all_space s : all_space s -> trimStart s = [].
Proof.
  induction 1 as [|c s Hc _ IH]; [reflexivity|]. cbn. now rewrite Hc.
Qed.

Lemma trim_all_space s : all_space s -> trim s = [].
Proof. intros H. unfold trim. now rewrite trimStart_all_space. Qed.

(** X9. A send is ignored, with no request and no change of state, while
    another one is pending, and when there is no attachment and the text is
    empty or made of white space only. *)
Theorem blank_send_ignored env st s :
  sending st = true
  \/ (attachments st = [] /\ all_space (default (input st) (pendingQuery st))) ->
  handleSend env st s = (Ret tt, s, []).
Proof.
  intros [Hs | [Ha Hblank]]; unfold handleSend.
  - rewrite Hs, orb_true_r. reflexivity.
  - rewrite (trim_all_space _ Hblank), Ha. reflexivity.
Qed.

Lemma blank_send_ignored_witness :
  let st := typed ([32; 10; 9]%N) fresh in
  (sending st = true
   \/ (attachments st = [] /\ all_space (default (input st) (pendingQuery st))))
  /\ handleSend (accepting [] (lit "ok")) st st = (Ret tt, st, []).
Proof.
  intros st.
  assert (H : sending st = true
              \/ (attachments st = []
                  /\ all_space (default (input st) (pendingQuery st)))).
  { right. split; [reflexivity|]. repeat constructor. }
  split; [exact H|].
  exact (blank_send_ignored (accepting [] (lit "ok")) st st H).
Defined.

(** X10. When nothing is pending, the send button is enabled exactly when
    a send would be accepted. *)
Theorem send_button_matches_guard st :
  pendingQuery st = None ->
  send_disabled st = false <-> accepts_send st.
Proof.
  intros Hp. unfold send_disabled, accepts_send. rewrite Hp.
  change (default (input st) None) with (input st).
  now rewrite orb_comm.
Qed.

Lemma send_button_matches_guard_witness :
  let st := typed (lit "Hello") fresh in
  pendingQuery st = None /\ (send_disabled st = false <-> accepts_send st).
Proof.
  intros st.
  assert (H : pendingQuery st = None) by reflexivity.
  split; [exact H|].
  exact (send_button_matches_guard st H).
Defined.

(** ** The end of a send *)

(** X11. Whatever the collaborators answer, an accepted send does not throw,
    and it ends with the sending flag down and the attachments cleared. *)
Theorem send_always_settles env st s :
  accepts_send st ->
  result (handleSend env st s) = Ret tt
  /\ sending (state_after (handleSend env st s)) = false
  /\ attachments (state_after (handleSend env st s)) = [].
Proof.
  intros Hguard. unfold handleSend. unfold accepts_send in Hguard. rewrite Hguard.
  rewrite result_bind, state_after_bind.
  cbn [setSending modify result state_after fst snd].
  rewrite state_after_try_finally.
  split; [|split; reflexivity].
  unfold try_finally, try_catch, result.
  destruct (send_turn env st _ _) as [[[[]|e] s'] evs]; reflexivity.
Qed.

Lemma send_always_settles_witness :
  let env := rejecting_user_insert (lit "Hi there") in
  accepts_send with_note
  /\ result (handleSend env with_note with_note) = Ret tt
  /\ sending (state_after (handleSend env with_note with_note)) = false
  /\ attachments (state_after (handleSend env with_note with_note)) = [].
Proof.
  intros env.
  assert (Hguard : accepts_send with_note) by (vm_compute; reflexivity).
  split; [exact Hguard|].
  exact (send_always_settles env with_note with_note Hguard).
Defined.

(** ** A conversation that cannot be created *)

(** X12. When no conversation is active and the store does not create one,
    the send asks for nothing else and shows the failure notice; the
    messages, the conversations and the typed text stay as they were, and
    the attachments are dropped. *)
Theorem conversation_failure_is_visible env st :
  accepts_send st ->
  conversation_of env st = None ->
  let run := handleSend env st st in
  exists e,
    events run
    = [ InsertConversation (userId st); ConsoleError e;
        Alert (lit "Failed to send message") ]
    /\ messages (state_after run) = messages st
    /\ conversations (state_after run) = conversations st
    /\ activeId (state_after run) = activeId st
    /\ input (state_after run) = input st
    /\ attachments (state_after run) = [].
Proof.
  intros Hguard Hconv run. subst run. unfold handleSend.
  unfold accepts_send in Hguard. rewrite Hguard.
  unfold send_turn, ensureConversation. unfold conversation_of in Hconv.
  destruct (truthy_opt (activeId st)) eqn:Eactive.
  { destruct (activeId st); [discriminate Hconv | discriminate Eactive]. }
  unfold await.
  destruct (conversation_insert env) as [[newId|] [e|]|e]; try discriminate Hconv;
    eexists; repeat split; reflexivity.
Qed.

Lemma conversation_failure_is_visible_witness :
  let env :=
    {| conversation_insert := Resolves None (Some (lit "offline"));
       user_insert := Resolves None None; user_insert_fallback := Resolves None None;
       title_update := Resolves None None; session := Resolves None None;
       gateway := Resolves None None; assistant_insert := Resolves None None;
       now := 0; now_iso := [] |} in
  let st := typed (lit "Hello") fresh in
  let run := handleSend env st st in
  accepts_send st /\ conversation_of env st = None
  /\ exists e,
    events run
    = [ InsertConversation (userId st); ConsoleError e;
        Alert (lit "Failed to send message") ]
    /\ messages (state_after run) = messages st
    /\ conversations (state_after run) = conversations st
    /\ activeId (state_after run) = activeId st
    /\ input (state_after run) = input st
    /\ attachments (state_after run) = [].
Proof.
  intros env st run.
  assert (Hguard : accepts_send st) by (vm_compute; reflexivity).
  assert (Hconv : conversation_of env st = None) by reflexivity.
  split; [exact Hguard|]. split; [exact Hconv|].
  exact (conversation_failure_is_visible env st Hguard Hconv).
Defined.

(** ** Cells a step leaves alone *)

Section Keeps.

Context {X A B : Type}.
Variable cell : State -> X.

Lemma keeps_cell_ret (a : A) : keeps cell (ret a).
Proof. intros s. reflexivity. Qed.

Lemma keeps_cell_throw e : keeps cell (throw (A := A) e).
Proof. intros s. reflexivity. Qed.

Lemma keeps_cell_emit e : keeps cell (emit e).
Proof. intros s. reflexivity. Qed.

Lemma keeps_cell_modify f : (forall s, cell (f s) = cell s) -> keeps cell (modify f).
Proof. intros Hf s. apply Hf. Qed.

Lemma keeps_cell_bind (m : M A) (k : A -> M B) :
  keeps cell m -> (forall a, returns m a -> keeps cell (k a)) -> keeps cell (bind m k).
Proof.
  intros Hm Hk s. rewrite state_after_bind. specialize (Hm s).
  destruct (result (m s)) as [a|e] eqn:Er; [|exact Hm].
  rewrite (Hk a (ex_intro _ s Er)). exact Hm.
Qed.

Lemma keeps_cell_try_catch (m : M A) handler :
  keeps cell m -> (forall e, keeps cell (handler e)) -> keeps cell (try_catch m handler).
Proof.
  intros Hm Hh s. rewrite state_after_try_catch. specialize (Hm s).
  destruct (result (m s)) as [a|e]; [exact Hm|]. rewrite (Hh e). exact Hm.
Qed.

Lemma keeps_cell_try_finally (m : M A) cleanup :
  keeps cell m -> keeps cell cleanup -> keeps cell (try_finally m cleanup).
Proof.
  intros Hm Hc s. rewrite state_after_try_finally, (Hc _). apply Hm.
Qed.

End Keeps.

Lemma keeps_cell_when {X} (cell : State -> X) b m :
  keeps cell m -> keeps cell (when b m).
Proof. destruct b; [auto | intros _; apply keeps_cell_ret]. Qed.

Lemma keeps_cell_await {X A} (cell : State -> X) request (r : reply A) :
  keeps cell (await request r).
Proof.
  unfold await. apply keeps_cell_bind; [apply keeps_cell_emit|].
  intros _ _. destruct r; [apply keeps_cell_ret | apply keeps_cell_throw].
Qed.

Lemma keeps_cell_play {X} (cell : State -> X) tempId slices :
  (forall f s, cell (state_after (setMessages f s)) = cell s) ->
  keeps cell (play tempId slices).
Proof.
  intros Hset. induction slices as [|p rest IH]; cbn [play].
  - apply keeps_cell_ret.
  - apply keeps_cell_bind; [apply keeps_cell_emit|]. intros _ _.
    apply keeps_cell_bind; [intros s; apply Hset|]. intros _ _. exact IH.
Qed.

Ltac cell_rule :=
  first
    [ apply keeps_cell_ret | apply keeps_cell_throw | apply keeps_cell_emit
    | apply keeps_cell_when | apply keeps_cell_await
    | apply keeps_cell_try_catch | apply keeps_cell_try_finally
    | apply keeps_cell_play; intros; reflexivity
    | apply keeps_cell_modify; intros; reflexivity
    | apply keeps_cell_bind; [|intros ? ?]
    | match goal with
      | |- keeps _ (match ?x with _ => _ end) => destruct x
      | |- forall _ : Err, keeps _ _ => intro
      end ].

(** The steps after [ensureConversation] leave the conversations and the
    active id alone. *)
Lemma after_conversation_keeps {X} (cell : State -> X) env st text cid :
  (forall f s, cell (state_after (setMessages f s)) = cell s) ->
  (forall v s, cell (state_after (setInput v s)) = cell s) ->
  (forall v s, cell (state_after (setPendingQuery v s)) = cell s) ->
  keeps cell
    (let content := userMessageContent text (attachments st) in
     setInput [] ;;
     when (truthy_opt (pendingQuery st)) (setPendingQuery None) ;;
     persist_user env cid content (attachments st) ;;
     title_conversation env st cid content ;;
     assistantText <- ask_gateway env st content ;;
     show_assistant env cid assistantText).
Proof.
  intros Hm Hi Hp. cbv zeta.
  apply keeps_cell_bind; [intros s; apply Hi|]. intros _ _.
  apply keeps_cell_bind;
    [apply keeps_cell_when; intros s; apply Hp|]. intros _ _.
  apply keeps_cell_bind.
  { unfold persist_user, insert_user.
    repeat first [ match goal with
                   | |- keeps _ (setMessages _) => intros s; apply Hm
                   end
                 | cell_rule ]. }
  intros _ _. unfold title_conversation, ask_gateway, show_assistant.
  repeat first [ match goal with
                 | |- keeps _ (setMessages _) => intros s; apply Hm
                 | |- keeps _ (play _ _) => apply keeps_cell_play; exact Hm
                 end
               | cell_rule ].
Qed.

(** ** Notices *)

Lemma send_turn_no_notice env st text s :
  notices (events (send_turn env st text s)) = [].
Proof.
  apply notices_quiet. revert s. change (emits not_alert (send_turn env st text)).
  unfold send_turn.
  repeat first
    [ match goal with
      | |- emits _ (ensureConversation _ _) => apply ensureConversation_emits
      | |- emits _ (show_assistant _ _ _) => apply show_assistant_emits
      end
    | step_rule ]; cbn; auto.
  intros _. split; [apply Forall_forall; intros; exact I | exact I].
Qed.

(** The notices of a send: the failure notice when the [try] block throws,
    none otherwise. *)
Lemma handleSend_notices env st s :
  accepts_send st ->
  notices (events (handleSend env st s))
  = match result (send_turn env st (trim (default (input st) (pendingQuery st)))
                    (state_after (setSending true s))) with
    | Throw _ => [lit "Failed to send message"]
    | Ret _ => []
    end.
Proof.
  intros Hguard. unfold handleSend. unfold accepts_send in Hguard. rewrite Hguard.
  rewrite events_bind. cbn [setSending modify events result state_after fst snd app].
  rewrite events_try_finally, notices_app, events_try_catch, notices_app.
  rewrite send_turn_no_notice.
  destruct (result (send_turn _ _ _ _)); reflexivity.
Qed.

(** ** Where the cells of a send come from *)

Lemma handleSend_cell {X} (cell : State -> X) env st s :
  accepts_send st ->
  (forall f s, cell (state_after (setMessages f s)) = cell s) ->
  (forall v s, cell (state_after (setInput v s)) = cell s) ->
  (forall v s, cell (state_after (setPendingQuery v s)) = cell s) ->
  (forall v s, cell (state_after (setSending v s)) = cell s) ->
  (forall f s, cell (state_after (setAttachments f s)) = cell s) ->
  cell (state_after (handleSend env st s))
  = cell (state_after (ensureConversation env st (state_after (setSending true s)))).
Proof.
  intros Hguard Hm Hi Hp Hs Ha. unfold handleSend.
  unfold accepts_send in Hguard. rewrite Hguard.
  rewrite state_after_bind.
  assert (Hr : result (setSending true s) = Ret tt) by reflexivity.
  rewrite Hr. clear Hr.
  rewrite state_after_try_finally.
  assert (Hclean : keeps cell (setSending false ;; setAttachments (fun _ => []))).
  { apply keeps_cell_bind; [intros s'; apply Hs|]. intros _ _ s'. apply Ha. }
  rewrite (Hclean _). clear Hclean.
  rewrite state_after_try_catch.
  assert (Hhandler : forall e, keeps cell
            (emit (ConsoleError e) ;; alert (lit "Failed to send message")))
    by (intros e s'; reflexivity).
  set (s1 := state_after (setSending true s)).
  assert (Hturn : cell (state_after (send_turn env st
                           (trim (default (input st) (pendingQuery st))) s1))
                  = cell (state_after (ensureConversation env st s1))).
  { unfold send_turn. rewrite state_after_bind.
    destruct (result (ensureConversation env st s1)) as [cid|e]; [|reflexivity].
    apply (after_conversation_keeps cell env st _ cid Hm Hi Hp). }
  destruct (result (send_turn _ _ _ s1)) as [[]|e]; [exact Hturn|].
  rewrite (Hhandler e _). exact Hturn.
Qed.

(** ** The requests of a send, one by one *)

Lemma ask_gateway_emits_exact P env st content :
  P GetSession ->
  (forall token e, session env = Resolves token e ->
     P (Invoke (messagesForLLM (messages st) (attachments st) content)
          (selectedModel st) (enableWeb st) (bearer token))) ->
  emits P (ask_gateway env st content).
Proof.
  intros Hs Hi. unfold ask_gateway.
  apply emits_bind; [apply emits_await, Hs|]. intros [token e] Hret.
  assert (Hsession : exists e', session env = Resolves token e').
  { destruct Hret as [s Hr]. revert Hr. unfold await, bind, emit, ret, throw, result.
    destruct (session env) as [t e'|e']; cbn; [|discriminate].
    intros [= -> _]. eauto. }
  destruct Hsession as [e' Hsession]. cbn [fst].
  repeat step_rule. exact (Hi token e' Hsession).
Qed.

(** As [handleSend_emits], with each request as the send makes it. *)
Lemma handleSend_emits_exact P env st :
  let content :=
    userMessageContent (trim (default (input st) (pendingQuery st))) (attachments st) in
  P (InsertConversation (userId st)) ->
  (forall cid c m, conversation_of env st = Some cid -> P (InsertMessage cid user c m)) ->
  (forall cid, conversation_of env st = Some cid ->
     P (UpdateTitle cid (summarized content))) ->
  P GetSession ->
  (forall token e, session env = Resolves token e ->
     P (Invoke (messagesForLLM (messages st) (attachments st) content)
          (selectedModel st) (enableWeb st) (bearer token))) ->
  (forall cid response,
     conversation_of env st = Some cid ->
     gateway env = Resolves response None ->
     truthy (answer_text response) = true ->
     Forall (fun p => P (Tick p)) (reveal (answer_text response))
     /\ P (InsertMessage cid assistant (answer_text response) None)) ->
  (forall e, P (ConsoleError e)) -> (forall m, P (Alert m)) ->
  emits P (handleSend env st).
Proof.
  intros content H1 H2 H3 H4 H5 H6 H7 H8. unfold handleSend.
  destruct (_ || _); [apply emits_ret|].
  unfold send_turn. fold content.
  apply emits_bind; [repeat step_rule|]. intros _ _.
  apply emits_try_finally; [|repeat step_rule].
  apply emits_try_catch; [|intros e; repeat step_rule; auto].
  apply emits_bind.
  { unfold ensureConversation. destruct (truthy_opt (activeId st));
      repeat step_rule. exact H1. }
  intros cid Hcid. apply ensureConversation_returns in Hcid.
  apply emits_bind; [repeat step_rule|]. intros _ _.
  apply emits_bind; [repeat step_rule|]. intros _ _.
  apply emits_bind; [apply persist_user_emits; intros; now apply H2|]. intros _ _.
  apply emits_bind; [apply title_conversation_emits; now apply H3|]. intros _ _.
  apply emits_bind; [apply ask_gateway_emits_exact; assumption|].
  intros text Htext. apply ask_gateway_returns in Htext as (response & Hg & ->).
  apply show_assistant_emits. intros Ht. now apply H6.
Qed.

(** ** A new chat *)

Lemma ensureConversation_creates env st s newId :
  truthy_opt (activeId st) = false ->
  conversation_insert env = Resolves (Some newId) None ->
  conversations (state_after (ensureConversation env st s))
    = new_conversation env (userId st) newId :: conversations s
  /\ activeId (state_after (ensureConversation env st s)) = Some newId.
Proof.
  intros Hactive Hinsert. unfold ensureConversation, await.
  rewrite Hactive, Hinsert. split; reflexivity.
Qed.

Lemma invocations_Forall Q evs :
  Forall (fun e => match e with
                   | Invoke msgs model web auth => Q (msgs, model, web, auth)
                   | _ => True
                   end) evs ->
  Forall Q (invocations evs).
Proof.
  induction 1 as [|e evs He _ IH]; [constructor|].
  destruct e; cbn; try exact IH. constructor; assumption.
Qed.

(** X13. After New chat, the next send creates a conversation, puts it first
    in the list and makes it active; its requests to the store are about
    that conversation, and the request to the model has no history. *)
Theorem new_chat_then_send env st0 newId :
  let st := state_after (handleNewConversation st0) in
  let run := handleSend env st st in
  accepts_send st0 ->
  conversation_insert env = Resolves (Some newId) None ->
  conversations (state_after run)
    = new_conversation env (userId st0) newId :: conversations st0
  /\ activeId (state_after run) = Some newId
  /\ Forall (about newId) (events run)
  /\ Forall (fun inv => exists content, fst (fst (fst inv))
                          = messagesForLLM [] (attachments st0) content)
       (invocations (events run)).
Proof.
  intros st run Hguard Hinsert.
  assert (Hguard' : accepts_send st) by exact Hguard.
  assert (Hactive : truthy_opt (activeId st) = false) by reflexivity.
  assert (Hconv : conversation_of env st = Some newId).
  { unfold conversation_of. rewrite Hactive, Hinsert. reflexivity. }
  subst run. split; [|split; [|split]].
  - rewrite (handleSend_cell conversations env st st Hguard')
      by (intros; reflexivity).
    now destruct (ensureConversation_creates env st
                    (state_after (setSending true st)) newId Hactive Hinsert).
  - rewrite (handleSend_cell activeId env st st Hguard')
      by (intros; reflexivity).
    now destruct (ensureConversation_creates env st
                    (state_after (setSending true st)) newId Hactive Hinsert).
  - apply handleSend_emits_exact; try exact I; try (intros; exact I).
    + intros cid c m Hc. cbn. congruence.
    + intros cid Hc. cbn. congruence.
    + intros cid response Hc _ _. split; [apply Forall_forall; intros; exact I|].
      cbn. congruence.
  - assert (Hall : Forall (fun e => match e with
                                    | Invoke msgs _ _ _ =>
                                        exists content,
                                          msgs = messagesForLLM [] (attachments st0) content
                                    | _ => True
                                    end) (events (handleSend env st st))).
    { apply handleSend_emits_exact; try exact I; try (intros; exact I).
      - intros token e _. eexists. reflexivity.
      - intros cid response _ _ _. split; [apply Forall_forall; intros; exact I|].
        exact I. }
    apply invocations_Forall with (Q := fun inv => exists content, fst (fst (fst inv))
                          = messagesForLLM [] (attachments st0) content).
    eapply Forall_impl; [exact Hall|]. intros [] H; cbn; auto.
Qed.

Lemma new_chat_then_send_witness :
  let env := accepting (lit "Bye") (lit "See you") in
  let st0 := typed (lit "Bye") (state_after first_turn) in
  let st := state_after (handleNewConversation st0) in
  let run := handleSend env st st in
  accepts_send st0
  /\ conversations (state_after run)
     = new_conversation env (userId st0) (lit "c1") :: conversations st0
  /\ activeId (state_after run) = Some (lit "c1")
  /\ Forall (about (lit "c1")) (events run)
  /\ Forall (fun inv => exists content, fst (fst (fst inv))
                          = messagesForLLM [] (attachments st0) content)
       (invocations (events run)).
Proof.
  intros env st0 st run.
  assert (Hguard : accepts_send st0) by (vm_compute; reflexivity).
  split; [exact Hguard|].
  exact (new_chat_then_send env st0 (lit "c1") Hguard eq_refl).
Defined.

(** ** A failing edge function *)

Lemma result_throws_bind_l {A B} (m : M A) (k : A -> M B) :
  throws m -> throws (bind m k).
Proof. intros Hm s. destruct (Hm s) as [e He]. exists e. now rewrite result_bind, He. Qed.

Lemma result_throws_bind_r {A B} (m : M A) (k : A -> M B) :
  (forall a, throws (k a)) -> throws (bind m k).
Proof.
  intros Hk s. rewrite result_bind. destruct (result (m s)) as [a|e]; [apply Hk | eauto].
Qed.

Lemma ask_gateway_throws env st content :
  fails (gateway env) -> throws (ask_gateway env st content).
Proof.
  intros Hf s. unfold ask_gateway, await, bind, emit, ret, throw, result.
  destruct (session env) as [token e|e]; cbn; [|eauto].
  destruct (gateway env) as [response [e'|]|e']; cbn; eauto. contradiction.
Qed.

Lemma send_turn_throws env st text :
  fails (gateway env) -> throws (send_turn env st text).
Proof.
  intros Hf. unfold send_turn.
  do 5 (apply result_throws_bind_r; intros ?).
  apply result_throws_bind_l, ask_gateway_throws, Hf.
Qed.

(** The message list after a send, when the steps after the insert of the
    user message leave it alone. *)
Lemma handleSend_adds_user_row env st :
  (forall cid content,
     keeps_messages
       (title_conversation env st cid content ;;
        assistantText <- ask_gateway env st content ;;
        show_assistant env cid assistantText)) ->
  adds_user_row_at_most env (messages st)
    (messages (state_after (handleSend env st st))).
Proof.
  intros Hrest. unfold handleSend. destruct (_ || _); [left; reflexivity|].
  rewrite state_after_bind.
  cbn [setSending modify result state_after fst snd].
  rewrite state_after_try_finally.
  assert (Hclean : keeps_messages
            (setSending false ;; setAttachments (fun _ => [])))
    by (intros s; reflexivity).
  rewrite (Hclean _). clear Hclean.
  rewrite state_after_try_catch.
  set (s1 := state_after (setSending true st)).
  assert (Hturn : adds_user_row_at_most env (messages st)
            (messages (state_after
               (send_turn env st (trim (default (input st) (pendingQuery st))) s1)))).
  { unfold send_turn. rewrite state_after_bind.
    pose proof (ensureConversation_keeps env st s1) as He.
    destruct (result (ensureConversation env st s1)) as [cid|e];
      [|left; exact He].
    set (s2 := state_after (ensureConversation env st s1)) in *.
    rewrite state_after_bind. cbn [setInput modify result state_after fst snd].
    rewrite state_after_bind.
    match goal with |- context [result (when ?b ?m ?s)] =>
      assert (Hw : result (when b m s) = Ret tt
                   /\ messages (state_after (when b m s)) = messages s2)
        by (destruct b; split; first [reflexivity | exact He]);
      destruct Hw as [Hw1 Hw2]; rewrite Hw1;
      set (s3 := state_after (when b m s)) in *
    end.
    rewrite state_after_bind.
    pose proof (persist_user_messages env cid
                  (userMessageContent (trim (default (input st) (pendingQuery st)))
                     (attachments st)) (attachments st) s3) as Hp.
    rewrite Hw2, He in Hp.
    destruct (result (persist_user _ _ _ _ s3)); [|exact Hp].
    rewrite (Hrest cid _ _). exact Hp. }
  destruct (result _) as [|e]; [exact Hturn|].
  assert (Hhandler : keeps_messages
            (emit (ConsoleError e) ;; alert (lit "Failed to send message")))
    by (intros s; reflexivity).
  rewrite (Hhandler _). exact Hturn.
Qed.

Lemma fails_not_resolved {A} (r : reply A) data :
  fails r -> r = Resolves data None -> False.
Proof. intros Hf ->. exact Hf. Qed.

(** X14. When the call of the edge function fails, by rejecting or by
    resolving with an error, an accepted send shows the failure notice and
    nothing else; no slice of an answer is displayed and no assistant
    message is stored; the message list ends as it was or with the stored
    user row added. *)
Theorem gateway_failure_is_reported env st :
  accepts_send st ->
  fails (gateway env) ->
  let run := handleSend env st st in
  notices (events run) = [lit "Failed to send message"]
  /\ Forall no_assistant_output (events run)
  /\ adds_user_row_at_most env (messages st) (messages (state_after run)).
Proof.
  intros Hguard Hf run. subst run. split; [|split].
  - rewrite (handleSend_notices env st st Hguard).
    destruct (send_turn_throws env st
                (trim (default (input st) (pendingQuery st))) Hf
                (state_after (setSending true st))) as [e ->].
    reflexivity.
  - apply handleSend_emits; cbn; auto.
    intros cid r Hr. destruct (fails_not_resolved _ _ Hf Hr).
  - apply handleSend_adds_user_row. intros cid content.
    unfold title_conversation.
    repeat first
      [ match goal with
        | H : returns (ask_gateway _ _ _) _ |- _ =>
            apply ask_gateway_returns in H; destruct H as (r & Hr & _);
            destruct (fails_not_resolved _ _ Hf Hr)
        end
      | keeps_rule ].
Qed.

Lemma gateway_failure_is_reported_witness :
  let env :=
    {| conversation_insert := Resolves (Some (lit "c1")) None;
       user_insert := Resolves (Some (row "m1" user (lit "Hello"))) None;
       user_insert_fallback := Resolves None None;
       title_update := Resolves None None;
       session := Resolves (Some (lit "token")) None;
       gateway := Resolves None (Some (lit "FunctionsHttpError"));
       assistant_insert := Resolves None None;
       now := 0; now_iso := [] |} in
  let st := typed (lit "Hello") fresh in
  let run := handleSend env st st in
  accepts_send st /\ fails (gateway env)
  /\ notices (events run) = [lit "Failed to send message"]
  /\ Forall no_assistant_output (events run)
  /\ adds_user_row_at_most env (messages st) (messages (state_after run)).
Proof.
  intros env st run.
  assert (Hguard : accepts_send st) by (vm_compute; reflexivity).
  assert (Hf : fails (gateway env)) by exact I.
  split; [exact Hguard|]. split; [exact Hf|].
  exact (gateway_failure_is_reported env st Hguard Hf).
Defined.

(** ** One conversation per send *)

Lemma created_app evs evs' : created (evs ++ evs') = created evs ++ created evs'.
Proof. apply omap_app. Qed.

Lemma created_quiet evs :
  Forall (fun e => match e with InsertConversation _ => False | _ => True end) evs ->
  created evs = [].
Proof.
  induction 1 as [|e evs He _ IH]; [reflexivity|].
  unfold created in *. cbn [omap list_omap]. rewrite IH.
  destruct e; try reflexivity. contradiction.
Qed.

(** X15. An accepted send asks the store for a conversation exactly when
    none is active, once, and for the signed-in user. *)
Theorem one_conversation_per_send env st s :
  accepts_send st ->
  created (events (handleSend env st s))
  = if truthy_opt (activeId st) then [] else [userId st].
Proof.
  intros Hguard. unfold handleSend. unfold accepts_send in Hguard. rewrite Hguard.
  rewrite events_bind.
  assert (Hr : result (setSending true s) = Ret tt) by reflexivity.
  rewrite Hr. clear Hr.
  change (events (setSending true s)) with (@nil Event). cbn [app].
  set (s1 := state_after (setSending true s)).
  rewrite events_try_finally, created_app, events_try_catch, created_app.
  assert (Hclean : forall s', events ((setSending false ;;
                                       setAttachments (fun _ => [])) s') = [])
    by reflexivity.
  rewrite Hclean, app_nil_r. clear Hclean.
  match goal with |- created (events ?r) ++ ?h = _ =>
    assert (Hh : h = []) by (destruct (result r); reflexivity); rewrite Hh
  end.
  rewrite app_nil_r. unfold send_turn. rewrite events_bind, created_app.
  assert (Hrest : forall cid s',
            created (events
              ((let content := userMessageContent
                                 (trim (default (input st) (pendingQuery st)))
                                 (attachments st) in
                setInput [] ;;
                when (truthy_opt (pendingQuery st)) (setPendingQuery None) ;;
                persist_user env cid content (attachments st) ;;
                title_conversation env st cid content ;;
                assistantText <- ask_gateway env st content ;;
                show_assistant env cid assistantText) s')) = []).
  { intros cid s'. apply created_quiet. revert s'.
    match goal with |- forall s', Forall ?P (events (?m s')) => change (emits P m) end.
    cbv zeta.
    repeat first
      [ match goal with
        | |- emits _ (persist_user _ _ _ _) => apply persist_user_emits; intros; exact I
        | |- emits _ (title_conversation _ _ _ _) => apply title_conversation_emits; exact I
        | |- emits _ (ask_gateway _ _ _) => apply ask_gateway_emits; intros; exact I
        | |- emits _ (show_assistant _ _ _) =>
            apply show_assistant_emits; intros _; split;
            [apply Forall_forall; intros; exact I | exact I]
        end
      | step_rule ]. }
  assert (Hens : created (events (ensureConversation env st s1))
                 = if truthy_opt (activeId st) then [] else [userId st]).
  { unfold ensureConversation. destruct (truthy_opt (activeId st)); [reflexivity|].
    unfold await, bind, emit, ret, throw, events.
    destruct (conversation_insert env) as [[newId|] [e|]|e]; reflexivity. }
  rewrite Hens.
  destruct (result (ensureConversation env st _)) as [cid|e];
    [rewrite Hrest|]; now rewrite app_nil_r.
Qed.

Lemma one_conversation_per_send_witness :
  let env := accepting (lit "Hello") (lit "Hi there") in
  let st := typed (lit "Hello") fresh in
  accepts_send st
  /\ created (events (handleSend env st st))
     = if truthy_opt (activeId st) then [] else [userId st].
Proof.
  intros env st.
  assert (Hguard : accepts_send st) by (vm_compute; reflexivity).
  split; [exact Hguard|].
  exact (one_conversation_per_send env st st Hguard).
Defined.

(** ** From the composer to the provider *)






(** ** The attachments of a turn *)

Lemma handleFiles_attachments st files s :
  attachments (state_after (handleFiles st files s))
  = attachments s
    ++ map (fun f => fst (read_item f))
         (List.filter (fun f => negb (too_large f)) (accepted st files)).
Proof.
  unfold handleFiles, alert.
  rewrite state_after_bind, when_emit_run.
  cbn [result state_after fst snd].
  rewrite state_after_bind.
  destruct (process_run (accepted st files) [] s) as (Hr & Hs & _).
  rewrite Hr, Hs. reflexivity.
Qed.

Lemma filter_length_le {X} (p : X -> bool) l :
  (length (List.filter p l) <= length l)%nat.
Proof.
  induction l as [|x l IH]; cbn; [lia|]. destruct (p x); cbn; lia.
Qed.

(** X17. A turn that holds at most five attachments still holds at most five
    after any batch of files is added to it. *)
Theorem attachments_stay_within_limit st files :
  (length (attachments st) <= 5)%nat ->
  (length (attachments (state_after (handleFiles st files st))) <= 5)%nat.
Proof.
  intros Hle. rewrite handleFiles_attachments, length_app, length_map.
  pose proof (filter_length_le (fun f => negb (too_large f)) (accepted st files)).
  assert (length (accepted st files) <= remaining st)%nat
    by (unfold accepted; rewrite length_take; lia).
  assert (remaining st = 5 - length (attachments st))%nat
    by (unfold remaining, maxCount; lia).
  lia.
Qed.

Lemma attachments_stay_within_limit_witness :
  (length (attachments with_note) <= 5)%nat
  /\ (length (attachments
               (state_after
                  (handleFiles with_note
                     (repeat (small_file "more.txt") 7) with_note))) <= 5)%nat.
Proof.
  assert (H : (length (attachments with_note) <= 5)%nat) by (vm_compute; lia).
  split; [exact H|].
  exact (attachments_stay_within_limit with_note (repeat (small_file "more.txt") 7) H).
Defined.

(** Two batches dropped in the same render both count against the
    attachments of that render: together they can pass the limit. *)
Example batches_of_one_render :
  let first := state_after (handleFiles fresh (repeat (small_file "a.txt") 5) fresh) in
  length (attachments
            (state_after (handleFiles fresh (repeat (small_file "b.txt") 5) first)))
  = 10%nat.
Proof. vm_compute. reflexivity. Qed.

(** ** What is read from a file *)

Lemma item_of_type f d t : truthy (a_type (item_of f d t)) = true.
Proof.
  cbn [item_of a_type]. unfold or_else.
  destruct (truthy (file_type f)) eqn:E; [exact E | reflexivity].
Qed.

(** X18. The attachment made of a file keeps its name and size and has a
    type; it holds a data URL only when its type is an image type; and when
    the reading failed it holds neither a data URL nor a text. *)
Theorem read_item_invariants f :
  let a := fst (read_item f) in
  a_name a = file_name f /\ a_size a = file_size f
  /\ truthy (a_type a) = true
  /\ (is_Some (a_dataUrl a) -> startsWith (a_type a) (lit "image/") = true)
  /\ (snd (read_item f) = true -> a_dataUrl a = None /\ a_textContent a = None).
Proof.
  cbv zeta. unfold read_item.
  set (type := or_else (file_type f) (lit "application/octet-stream")).
  assert (Hty : forall d t, a_type (item_of f d t) = type) by reflexivity.
  assert (Hno : forall P : Prop, is_Some (@None jsstring) -> P)
    by (intros P [x Hx]; discriminate Hx).
  assert (Hfin : forall d t warned,
            (is_Some d -> startsWith type (lit "image/") = true) ->
            (warned = true -> d = None /\ t = None) ->
            a_name (item_of f d t) = file_name f
            /\ a_size (item_of f d t) = file_size f
            /\ truthy (a_type (item_of f d t)) = true
            /\ (is_Some (a_dataUrl (item_of f d t)) ->
                startsWith (a_type (item_of f d t)) (lit "image/") = true)
            /\ (warned = true ->
                a_dataUrl (item_of f d t) = None
                /\ a_textContent (item_of f d t) = None)).
  { intros d t warned Hd Hw. repeat split; try apply item_of_type; try apply Hw; auto. }
  destruct (startsWith type (lit "image/")) eqn:Eimg.
  - destruct (file_dataURL f) as [url|]; cbn [fst snd]; apply Hfin;
      auto; discriminate.
  - destruct (is_text_type type || has_text_extension (file_name f)).
    + destruct (file_text f) as [t|]; cbn [fst snd]; apply Hfin;
        auto; try discriminate; apply Hno.
    + destruct (_ || _); [|destruct (_ || _)]; cbn [fst snd]; apply Hfin;
        auto; try discriminate; apply Hno.
Qed.

(** X19. A file is put among the images of the request exactly when its type
    is an image type, its data URL was read and is not empty, and text
    recognition found nothing in it. *)
Theorem sent_as_image_iff f :
  goes_to_images (fst (read_item f)) = true
  <-> startsWith (or_else (file_type f) (lit "application/octet-stream"))
        (lit "image/") = true
      /\ truthy_opt (file_dataURL f) = true
      /\ truthy (file_ocr f) = false.
Proof.
  unfold goes_to_images, read_item.
  set (type := or_else (file_type f) (lit "application/octet-stream")).
  assert (Hty : forall d t, a_type (item_of f d t) = type) by reflexivity.
  destruct (startsWith type (lit "image/")) eqn:Eimg.
  - destruct (file_dataURL f) as [url|]; cbn [fst].
    + rewrite Hty, Eimg. cbn [item_of a_textContent a_dataUrl truthy_opt].
      destruct (truthy (file_ocr f)) eqn:Eocr; cbn [truthy_opt negb andb].
      * rewrite Eocr. cbn. split; [discriminate | intros (_ & _ & H); discriminate H].
      * destruct (truthy url); split; auto; try discriminate.
        intros (_ & H & _); discriminate H.
    + rewrite Hty, Eimg. cbn. split; [discriminate | intros (_ & H & _); discriminate H].
  - assert (Hgo : forall d t, negb (truthy_opt (a_textContent (item_of f d t)))
                              && startsWith (a_type (item_of f d t)) (lit "image/")
                              && truthy_opt (a_dataUrl (item_of f d t)) = false).
    { intros d t. rewrite Hty, Eimg. now rewrite andb_false_r. }
    assert (Hall : forall x : Attachment * bool,
              (exists d t, fst x = item_of f d t) ->
              negb (truthy_opt (a_textContent (fst x)))
              && startsWith (a_type (fst x)) (lit "image/")
              && truthy_opt (a_dataUrl (fst x)) = true
              <-> false = true /\ truthy_opt (file_dataURL f) = true
                  /\ truthy (file_ocr f) = false).
    { intros x (d & t & ->). rewrite Hgo.
      split; [discriminate | intros (H & _); discriminate H]. }
    apply Hall.
    destruct (is_text_type type || has_text_extension (file_name f));
      [destruct (file_text f)|destruct (_ || _); [|destruct (_ || _)]];
      cbn [fst]; eauto.
Qed.

(** ** The day of a conversation *)

(** X20. The number of days between two local midnights is the number of
    calendar days, also when a change of the clock in between makes the
    interval a little shorter or longer than a multiple of 24 hours. *)
Theorem day_difference_tolerates_clock_changes cal dateIso k delta :
  (startOfToday cal - startOfThatDay cal dateIso = k * day_ms + delta)%Z ->
  (- (day_ms / 2) <= delta < day_ms / 2)%Z ->
  diffDays cal dateIso = k.
Proof.
  intros Hdiff Hdelta. unfold diffDays, round_div. rewrite Hdiff.
  unfold day_ms in *.
  change (1000 * 60 * 60 * 24)%Z with 86400000%Z in *.
  change (86400000 / 2)%Z with 43200000%Z in Hdelta.
  replace (2 * (k * 86400000 + delta) + 86400000)%Z
    with (k * (2 * 86400000) + (2 * delta + 86400000))%Z by lia.
  rewrite Z.div_add_l by lia. rewrite Z.div_small by lia. lia.
Qed.

Lemma day_difference_tolerates_clock_changes_witness :
  let cal := calendar_at (3 * 86400000) 3600000 in
  (startOfToday cal - startOfThatDay cal [] = 3 * day_ms + (- 3600000))%Z
  /\ (- (day_ms / 2) <= - 3600000 < day_ms / 2)%Z
  /\ diffDays cal [] = 3%Z.
Proof.
  intros cal.
  assert (H1 : (startOfToday cal - startOfThatDay cal []
                = 3 * day_ms + (- 3600000))%Z) by reflexivity.
  assert (H2 : (- (day_ms / 2) <= - 3600000 < day_ms / 2)%Z)
    by (vm_compute; split; [discriminate | reflexivity]).
  split; [exact H1|]. split; [exact H2|].
  exact (day_difference_tolerates_clock_changes cal [] 3 (- 3600000) H1 H2).
Defined.

(** ** The preferences *)

Lemma keys_differ : key_selectedModel <> key_enableWeb.
Proof. discriminate. Qed.

Lemma String_of_bool_parse b : bool_decide (String_of_bool b = lit "true") = b.
Proof. destruct b; reflexivity. Qed.

Ltac same_storage :=
  let k := fresh "k" in
  apply map_eq; intros k;
  destruct (decide (k = key_enableWeb)) as [->|];
    [|destruct (decide (k = key_selectedModel)) as [->|]];
  repeat first [ rewrite lookup_insert_eq
               | rewrite lookup_insert_ne by congruence ];
  reflexivity.

(** X21. The preferences saved from a state come back when the component
    mounts again: whatever the initial state of the new mount, it ends with
    the saved model and web switch, and the storage holds them still. *)
Theorem preferences_survive_reload s storage s0 :
  truthy (selectedModel s) = true ->
  let saved := saveEnableWeb s (saveSelectedModel s storage) in
  selectedModel (fst (mountPreferences saved s0)) = selectedModel s
  /\ enableWeb (fst (mountPreferences saved s0)) = enableWeb s
  /\ snd (mountPreferences saved s0) = saved.
Proof.
  intros Hm saved. pose proof keys_differ as Hk.
  assert (HM : saved !! key_selectedModel = Some (selectedModel s)).
  { unfold saved, saveEnableWeb, saveSelectedModel.
    rewrite lookup_insert_ne by congruence. apply lookup_insert_eq. }
  assert (HW : saved !! key_enableWeb = Some (String_of_bool (enableWeb s))).
  { unfold saved, saveEnableWeb. apply lookup_insert_eq. }
  assert (H1 : selectedModel (state_after (loadPreferences saved s0)) = selectedModel s
               /\ enableWeb (state_after (loadPreferences saved s0)) = enableWeb s).
  { unfold loadPreferences. cbv zeta. rewrite HM, HW. cbn [truthy_opt default]. rewrite Hm.
    rewrite String_of_bool_parse. split; reflexivity. }
  destruct H1 as [H1 H2].
  unfold mountPreferences.
  set (s1 := state_after (loadPreferences saved s0)) in *. clearbody s1.
  cbn [fst snd]. rewrite H1, H2.
  split; [reflexivity|]. split; [reflexivity|].
  unfold saved, saveEnableWeb, saveSelectedModel. rewrite H1, H2.
  destruct (bool_decide_reflect (selectedModel s = selectedModel s0)) as [E1|E1];
    destruct (bool_decide_reflect (enableWeb s = enableWeb s0)) as [E2|E2];
    rewrite <- ?E1, <- ?E2.
  all: pose proof keys_differ; same_storage.
Qed.

Lemma preferences_survive_reload_witness :
  let s := state_after ((setSelectedModel (lit "google/gemini-2.0-flash-exp:free") ;;
                         setEnableWeb true) fresh) in
  let saved := saveEnableWeb s (saveSelectedModel s empty) in
  truthy (selectedModel s) = true
  /\ selectedModel (fst (mountPreferences saved fresh)) = selectedModel s
  /\ enableWeb (fst (mountPreferences saved fresh)) = enableWeb s
  /\ snd (mountPreferences saved fresh) = saved.
Proof.
  intros s saved.
  assert (H : truthy (selectedModel s) = true) by reflexivity.
  split; [exact H|].
  exact (preferences_survive_reload s empty fresh H).
Defined.

(** ** Deleting a conversation *)

Lemma confirmDelete_resolved data error id st s :
  truthy id = true ->
  let was_active := bool_decide (activeId st = Some id) in
  let keep := fun x : Conversation => negb (bool_decide (c_id x = id)) in
  let after := del_state (confirmDelete (Resolves data error) (Some id) st s) in
  conversations after = List.filter keep (conversations s)
  /\ activeId after
     = (if was_active then c_id <$> find keep (conversations st) else activeId s)
  /\ messages after = (if was_active then [] else messages s).
Proof.
  intros Hid. cbv zeta. unfold confirmDelete.
  change (default [] (Some id)) with id.
  cbn [truthy_opt]. rewrite Hid. cbn [negb del_state].
  destruct (bool_decide (activeId st = Some id)); repeat split; reflexivity.
Qed.

(** X22. Once the store has answered the delete, with or without an error,
    the conversation is no longer listed and is not the active one; the
    other conversations stay; when it was the active one the message list is
    emptied, otherwise the active id and the messages stay; and an active id
    that named a listed conversation before names one after. *)
Theorem deleted_conversation_is_gone data error id st :
  truthy id = true ->
  let run := confirmDelete (Resolves data error) (Some id) st st in
  Forall (fun c => c_id c <> id) (conversations (del_state run))
  /\ (forall c, c_id c <> id ->
        In c (conversations (del_state run)) <-> In c (conversations st))
  /\ activeId (del_state run) <> Some id
  /\ (activeId st = Some id -> messages (del_state run) = [])
  /\ (activeId st <> Some id ->
        activeId (del_state run) = activeId st
        /\ messages (del_state run) = messages st)
  /\ (active_is_listed st -> active_is_listed (del_state run)).
Proof.
  intros Hid run. subst run.
  destruct (confirmDelete_resolved data error id st st Hid) as (Hc & Ha & Hm).
  set (after := del_state _) in *. clearbody after.
  set (keep := fun x : Conversation => negb (bool_decide (c_id x = id))) in *.
  assert (Hkeep : forall c, keep c = true <-> c_id c <> id).
  { intros c. unfold keep. rewrite negb_true_iff, bool_decide_eq_false. tauto. }
  assert (Hlist : forall c, In c (conversations after)
                            <-> In c (conversations st) /\ c_id c <> id).
  { intros c. rewrite Hc, filter_In, Hkeep. tauto. }
  assert (Hfound : forall c, find keep (conversations st) = Some c ->
                             In c (conversations after)).
  { intros c Hf. apply find_some in Hf as [Hin Hk]. apply Hlist.
    split; [exact Hin | now apply Hkeep]. }
  split; [apply List.Forall_forall; intros c Hin; now apply Hlist in Hin|].
  split; [intros c Hne; rewrite Hlist; tauto|].
  destruct (bool_decide_reflect (activeId st = Some id)) as [Ea|Ea].
  - split; [|split; [auto|split; [contradiction|]]].
    + rewrite Ha. destruct (find keep (conversations st)) as [c|] eqn:Ef;
        [|discriminate].
      specialize (Hfound c eq_refl). apply Hlist in Hfound. cbn. intros [= E]. tauto.
    + intros _ a Hact. rewrite Ha in Hact.
      destruct (find keep (conversations st)) as [c|] eqn:Ef; [|discriminate Hact].
      injection Hact as <-. exists c. split; [now apply Hfound | reflexivity].
  - split; [congruence|]. split; [contradiction|]. split; [auto|].
    intros Hlisted a Hact. rewrite Ha in Hact.
    destruct (Hlisted a Hact) as (c & Hin & Hcid).
    exists c. split; [|exact Hcid]. apply Hlist. split; [exact Hin|]. congruence.
Qed.

Lemma deleted_conversation_is_gone_witness :
  let st := state_after first_turn in
  let run := confirmDelete (Resolves None (Some (lit "row-level security")))
               (Some (lit "c1")) st st in
  truthy (lit "c1") = true
  /\ Forall (fun c => c_id c <> lit "c1") (conversations (del_state run))
  /\ (forall c, c_id c <> lit "c1" ->
        In c (conversations (del_state run)) <-> In c (conversations st))
  /\ activeId (del_state run) <> Some (lit "c1")
  /\ (activeId st = Some (lit "c1") -> messages (del_state run) = [])
  /\ (activeId st <> Some (lit "c1") ->
        activeId (del_state run) = activeId st
        /\ messages (del_state run) = messages st)
  /\ (active_is_listed st -> active_is_listed (del_state run)).
Proof.
  intros st run.
  assert (H : truthy (lit "c1") = true) by reflexivity.
  split; [exact H|].
  exact (deleted_conversation_is_gone None (Some (lit "row-level security"))
           (lit "c1") st H).
Defined.

(** ** The groups of the sidebar *)

Lemma formatRelativeGroup_truthy cal dateIso :
  truthy (formatRelativeGroup cal dateIso) = true.
Proof.
  assert (Happ : forall (a b : jsstring), truthy b = true -> truthy (a ++ b) = true)
    by (intros [|c a] b H; [exact H | reflexivity]).
  unfold formatRelativeGroup. cbv zeta.
  repeat match goal with |- context [if ?b then _ else _] => destruct b end;
    try reflexivity; apply Happ; try reflexivity.
Qed.

Lemma label_of_truthy cal c : truthy (label_of cal c) = true.
Proof. apply formatRelativeGroup_truthy. Qed.

(** The groups pushed from a current label on: they start with the group of
    that label, hold the current items followed by the rest, in order, are
    well formed, and neighbours differ in their labels. *)
Lemma group_fold cal convs : forall groups l items,
  truthy l = true -> items <> [] ->
  Forall (fun c => label_of cal c = l) items ->
  exists its tail,
    (let '(gs, cur, cis) := fold_left (group_step cal) convs (groups, Some l, items) in
     push_current gs cur cis)
    = groups ++ {| g_label := l; g_items := its |} :: tail
    /\ concat (map g_items ({| g_label := l; g_items := its |} :: tail)) = items ++ convs
    /\ Forall (well_formed_group cal) ({| g_label := l; g_items := its |} :: tail)
    /\ (forall i g g',
          ({| g_label := l; g_items := its |} :: tail) !! i = Some g ->
          ({| g_label := l; g_items := its |} :: tail) !! S i = Some g' ->
          g_label g <> g_label g').
Proof.
  induction convs as [|c rest IH]; intros groups l items Hl Hne Hall.
  - exists items, []. cbn [fold_left]. unfold push_current. cbn [truthy_opt].
    rewrite Hl. split; [reflexivity|]. split; [|split].
    + cbn. rewrite ?app_nil_r. reflexivity.
    + repeat constructor; assumption.
    + intros i g g' _ H. destruct i; discriminate H.
  - cbn [fold_left group_step].
    destruct (bool_decide_reflect (Some (label_of cal c) = Some l)) as [E|E];
      cbn [negb].
    + injection E as E.
      destruct (IH groups l (items ++ [c]) Hl) as (its & tail & Hrun & Hcat & Hwf & Hadj).
      { intros H. apply app_eq_nil in H as [_ H]. discriminate H. }
      { apply Forall_app. split; [exact Hall|]. repeat constructor. exact E. }
      exists its, tail. rewrite Hrun. split; [reflexivity|].
      split; [|split; assumption].
      rewrite Hcat, <- app_assoc. reflexivity.
    + assert (Hdiff : label_of cal c <> l) by congruence.
      destruct (IH (push_current groups (Some l) items) (label_of cal c) [c]
                  (label_of_truthy cal c))
        as (its & tail & Hrun & Hcat & Hwf & Hadj).
      { discriminate. }
      { repeat constructor. }
      exists items, ({| g_label := label_of cal c; g_items := its |} :: tail).
      rewrite Hrun. unfold push_current. cbn [truthy_opt]. rewrite Hl.
      change (default [] (Some l)) with l.
      split; [now rewrite <- app_assoc|]. split; [|split].
      * change (concat (map g_items ({| g_label := l; g_items := items |}
                  :: {| g_label := label_of cal c; g_items := its |} :: tail)))
          with (items ++ concat (map g_items
                  ({| g_label := label_of cal c; g_items := its |} :: tail))).
        now rewrite Hcat.
      * constructor; [split; assumption | exact Hwf].
      * intros [|i] g g' Hg Hg'.
        -- injection Hg as <-. injection Hg' as <-. cbn. congruence.
        -- exact (Hadj i g g' Hg Hg').
Qed.

(** X23. The groups of the sidebar hold the listed conversations, each once
    and in the order of the list; no group is empty; every conversation is
    in a group of its own label; and two neighbouring groups differ in their
    labels. *)
Theorem groups_partition_the_list cal convs :
  let groups := groupedConversations cal convs in
  concat (map g_items groups) = convs
  /\ Forall (well_formed_group cal) groups
  /\ (forall i g g', groups !! i = Some g -> groups !! S i = Some g' ->
        g_label g <> g_label g').
Proof.
  cbv zeta. unfold groupedConversations. destruct convs as [|c rest].
  - cbn. split; [reflexivity|].
    split; [constructor | intros i g g' H; destruct i; discriminate H].
  - cbn [fold_left group_step].
    match goal with
    | |- context [if negb ?b then _ else _] =>
        assert (Hfirst : b = false) by reflexivity; rewrite Hfirst
    end.
    cbn [negb].
    change (push_current [] None []) with (@nil Group).
    destruct (group_fold cal rest [] (label_of cal c) [c] (label_of_truthy cal c))
      as (its & tail & Hrun & Hcat & Hwf & Hadj).
    { discriminate. }
    { repeat constructor. }
    rewrite Hrun. cbn [app]. split; [exact Hcat|]. split; assumption.
Qed.

(** ** The text of a PDF *)

Lemma trimStart_keeps c a b :
  is_space c = false -> trimStart (a ++ c :: b) = trimStart a ++ c :: b.
Proof.
  intros Hc. induction a as [|d a IH]; cbn [app trimStart].
  - now rewrite Hc.
  - destruct (is_space d); [exact IH | reflexivity].
Qed.

Lemma trimEnd_keeps c p r :
  is_space c = false -> trimEnd (p ++ c :: r) = p ++ c :: trimEnd r.
Proof.
  intros Hc. unfold trimEnd.
  rewrite rev_app_distr. cbn [rev]. rewrite <- app_assoc. cbn [app].
  rewrite (trimStart_keeps c _ _ Hc), rev_app_distr. cbn [rev].
  rewrite rev_involutive, <- app_assoc. reflexivity.
Qed.

Lemma pdf_pages_extends pages : forall i fullText,
  exists more, pdf_pages i pages fullText = fullText ++ more.
Proof.
  induction pages as [|items rest IH]; intros i fullText; cbn [pdf_pages].
  - exists []. now rewrite app_nil_r.
  - destruct (IH (i + 1)%N
                (fullText ++ nl ++ nl ++ lit "--- Page " ++ decimal i ++ lit " ---"
                 ++ nl ++ page_text items)) as [more ->].
    eexists. rewrite <- app_assoc. reflexivity.
Qed.

(** X24. The text extracted from a document with at least one page starts
    with the header of the first page, so it is never empty, whether or not
    the pages hold any text. *)
Theorem pdf_text_starts_with_first_header items rest :
  exists tail,
    extractPdfText (Some (items :: rest)) = lit "--- Page 1 ---" ++ tail.
Proof.
  unfold extractPdfText. cbn [pdf_pages].
  destruct (pdf_pages_extends rest (1 + 1)%N
              ([] ++ nl ++ nl ++ lit "--- Page " ++ decimal 1 ++ lit " ---"
               ++ nl ++ page_text items)) as [more ->].
  set (body := page_text items).
  change (([] ++ nl ++ nl ++ lit "--- Page " ++ decimal 1 ++ lit " ---" ++ nl ++ body)
          ++ more)
    with (nl ++ nl ++ lit "--- Page 1 --" ++ 45%N :: (nl ++ body ++ more)).
  assert (Hstart : forall x, trimStart (nl ++ nl ++ lit "--- Page 1 --" ++ x)
                             = lit "--- Page 1 --" ++ x) by reflexivity.
  unfold trim. rewrite Hstart, trimEnd_keeps by reflexivity.
  exists (trimEnd (nl ++ body ++ more)). reflexivity.
Qed.

(** ** An answered turn *)

Lemma replace_temp tempId (f : Message -> Message) prev ph :
  Forall (fun x => msg_id x <> tempId) prev ->
  msg_id ph = tempId ->
  map (fun x => if bool_decide (msg_id x = tempId) then f x else x) (prev ++ [ph])
  = prev ++ [f ph].
Proof.
  intros Hprev Hph. rewrite map_app. cbn [map].
  rewrite bool_decide_eq_true_2 by exact Hph. f_equal.
  induction Hprev as [|x prev Hx _ IH]; [reflexivity|].
  cbn [map]. rewrite bool_decide_eq_false_2 by exact Hx. now rewrite IH.
Qed.

Lemma set_content_id tempId p x : msg_id (set_content tempId p x) = msg_id x.
Proof. unfold set_content. destruct (bool_decide _); reflexivity. Qed.

Lemma set_content_other tempId p prev :
  Forall (fun x => msg_id x <> tempId) prev ->
  map (set_content tempId p) prev = prev.
Proof.
  induction 1 as [|x prev Hx _ IH]; [reflexivity|]. cbn [map]. rewrite IH.
  unfold set_content. now rewrite bool_decide_eq_false_2 by exact Hx.
Qed.

Lemma play_messages tempId slices : forall s prev ph,
  messages s = prev ++ [ph] ->
  Forall (fun x => msg_id x <> tempId) prev ->
  msg_id ph = tempId ->
  exists ph', msg_id ph' = tempId
              /\ messages (state_after (play tempId slices s)) = prev ++ [ph'].
Proof.
  induction slices as [|p rest IH]; intros s prev ph Hs Hprev Hph; cbn [play].
  - exists ph. split; [exact Hph | exact Hs].
  - rewrite state_after_bind. cbn [emit result state_after fst snd].
    rewrite state_after_bind.
    assert (Hr : result (setMessages (map (set_content tempId p)) s) = Ret tt)
      by reflexivity.
    rewrite Hr. clear Hr.
    apply (IH _ prev (set_content tempId p ph)).
    + cbn [setMessages modify state_after fst snd messages]. rewrite Hs.
      rewrite map_app, (set_content_other _ _ _ Hprev). reflexivity.
    + exact Hprev.
    + now rewrite set_content_id.
Qed.

(** The message list after the answer was shown and stored. *)
Lemma show_assistant_messages env cid text final error s :
  truthy text = true ->
  assistant_insert env = Resolves (Some final) error ->
  Forall (fun x => msg_id x <> temp_id env) (messages s) ->
  result (show_assistant env cid text s) = Ret tt
  /\ messages (state_after (show_assistant env cid text s)) = messages s ++ [final].
Proof.
  intros Ht Hins Hprev.
  split; [rewrite show_assistant_result, Hins; reflexivity|].
  unfold show_assistant. rewrite Ht. cbn [when]. fold (temp_id env).
  rewrite state_after_bind.
  match goal with |- context [result (setMessages ?f s)] =>
    assert (Hr : result (setMessages f s) = Ret tt) by reflexivity;
    rewrite Hr; clear Hr;
    assert (Hs1 : messages (state_after (setMessages f s)) = f (messages s))
      by reflexivity;
    set (s1 := state_after (setMessages f s)) in *
  end.
  cbv beta in Hs1. clearbody s1.
  rewrite state_after_bind.
  destruct (play_run (temp_id env) (reveal text) s1) as [Hr _]. rewrite Hr. clear Hr.
  destruct (play_messages (temp_id env) (reveal text) s1 (messages s) _ Hs1 Hprev
              eq_refl) as (ph' & Hid & Hs2).
  set (s2 := state_after (play (temp_id env) (reveal text) s1)) in *. clearbody s2.
  unfold await. rewrite Hins.
  rewrite !state_after_bind.
  change (result ((emit (InsertMessage cid assistant text None) ;;
                   ret (Some final, error)) s2))
    with (Ret (A := option Message * option Err) (Some final, error)).
  cbn [fst setMessages modify state_after snd messages emit ret result]. rewrite Hs2.
  now apply (replace_temp (temp_id env) (fun _ => final)).
Qed.

(** The message list after the user message was stored at the first try. *)
Lemma persist_user_stores env cid content atts m error s :
  user_insert env = Resolves (Some m) error ->
  result (persist_user env cid content atts s) = Ret tt
  /\ messages (state_after (persist_user env cid content atts s)) = messages s ++ [m]
  /\ sending (state_after (persist_user env cid content atts s)) = sending s.
Proof.
  intros Hins. unfold persist_user, insert_user, await. rewrite Hins.
  repeat split; reflexivity.
Qed.

Lemma ask_gateway_answers env st content token e answer s :
  session env = Resolves token e ->
  gateway env = Resolves (Some (Some answer)) None ->
  result (ask_gateway env st content s) = Ret answer
  /\ state_after (ask_gateway env st content s) = s.
Proof.
  intros Hs Hg. unfold ask_gateway, await. rewrite Hs, Hg. split; reflexivity.
Qed.

Lemma title_conversation_state env st cid content s :
  state_after (title_conversation env st cid content s) = s.
Proof.
  unfold title_conversation, await.
  destruct (negb (has_title st)); [|reflexivity].
  destruct (title_update env); reflexivity.
Qed.

(** X25. When every collaborator answers, a send ends with the two stored
    rows appended to the message list, the user row and then the assistant
    row; the placeholder is gone and no notice is shown. *)
Theorem answered_turn_appends_stored_rows env st cid m e1 d e2 token e3 answer final e4 :
  accepts_send st ->
  conversation_of env st = Some cid ->
  user_insert env = Resolves (Some m) e1 ->
  title_update env = Resolves d e2 ->
  session env = Resolves token e3 ->
  gateway env = Resolves (Some (Some answer)) None ->
  truthy answer = true ->
  assistant_insert env = Resolves (Some final) e4 ->
  Forall (fun x => msg_id x <> temp_id env) (messages st ++ [m]) ->
  let run := handleSend env st st in
  messages (state_after run) = messages st ++ [m; final]
  /\ notices (events run) = [].
Proof.
  intros Hguard Hconv Hu Ht Hs Hg Hans Ha Hfresh run. subst run.
  set (text := trim (default (input st) (pendingQuery st))).
  set (s1 := state_after (setSending true st)).
  assert (Hturn : result (send_turn env st text s1) = Ret tt
                  /\ messages (state_after (send_turn env st text s1))
                     = messages st ++ [m; final]).
  { unfold send_turn.
    rewrite result_bind, state_after_bind, ensureConversation_result, Hconv.
    pose proof (ensureConversation_keeps env st s1) as Hk1.
    set (s2 := state_after (ensureConversation env st s1)) in *. clearbody s2.
    rewrite result_bind, state_after_bind.
    assert (Hr : result (setInput [] s2) = Ret tt) by reflexivity. rewrite Hr. clear Hr.
    assert (Hk2 : messages (state_after (setInput [] s2)) = messages s2) by reflexivity.
    set (s3 := state_after (setInput [] s2)) in *. clearbody s3.
    rewrite result_bind, state_after_bind.
    assert (Hw : result (when (truthy_opt (pendingQuery st)) (setPendingQuery None) s3)
                 = Ret tt
                 /\ messages (state_after
                      (when (truthy_opt (pendingQuery st)) (setPendingQuery None) s3))
                    = messages s3)
      by (destruct (truthy_opt (pendingQuery st)); split; reflexivity).
    destruct Hw as [Hr Hk3]. rewrite Hr. clear Hr.
    set (s4 := state_after (when _ _ s3)) in *. clearbody s4.
    rewrite result_bind, state_after_bind.
    destruct (persist_user_stores env cid (userMessageContent text (attachments st))
                (attachments st) m e1 s4 Hu) as (Hr & Hk4 & _).
    rewrite Hr. clear Hr.
    set (s5 := state_after (persist_user _ _ _ _ s4)) in *. clearbody s5.
    rewrite result_bind, state_after_bind.
    rewrite (title_conversation_returns env st cid _ s5 d e2 Ht).
    rewrite title_conversation_state.
    rewrite result_bind, state_after_bind.
    destruct (ask_gateway_answers env st (userMessageContent text (attachments st))
                token e3 answer s5 Hs Hg) as [Hr Hk5].
    rewrite Hr, Hk5. clear Hr Hk5.
    assert (Hm5 : messages s5 = messages st ++ [m])
      by (rewrite Hk4, Hk3, Hk2, Hk1; reflexivity).
    destruct (show_assistant_messages env cid answer final e4 s5 Hans Ha) as [Hr Hk6].
    { rewrite Hm5. exact Hfresh. }
    split; [exact Hr|]. rewrite Hk6, Hm5, <- app_assoc. reflexivity. }
  destruct Hturn as [Hres Hmsgs].
  split.
  - unfold handleSend. unfold accepts_send in Hguard. rewrite Hguard.
    rewrite state_after_bind.
    assert (Hr : result (setSending true st) = Ret tt) by reflexivity.
    rewrite Hr. clear Hr. fold s1. fold text.
    rewrite state_after_try_finally.
    assert (Hclean : keeps_messages (setSending false ;; setAttachments (fun _ => [])))
      by (intros s; reflexivity).
    rewrite (Hclean _), state_after_try_catch, Hres. exact Hmsgs.
  - rewrite (handleSend_notices env st st Hguard). fold text. fold s1.
    now rewrite Hres.
Qed.

Lemma answered_turn_appends_stored_rows_witness :
  let env := accepting (lit "Hello") (lit "Hi there") in
  let st := typed (lit "Hello") fresh in
  let m := row "m1" user (lit "Hello") in
  let final := row "m2" assistant (lit "Hi there") in
  let run := handleSend env st st in
  accepts_send st
  /\ conversation_of env st = Some (lit "c1")
  /\ Forall (fun x => msg_id x <> temp_id env) (messages st ++ [m])
  /\ messages (state_after run) = messages st ++ [m; final]
  /\ notices (events run) = [].
Proof.
  intros env st m final run.
  assert (Hguard : accepts_send st) by (vm_compute; reflexivity).
  assert (Hconv : conversation_of env st = Some (lit "c1")) by reflexivity.
  assert (Hfresh : Forall (fun x => msg_id x <> temp_id env) (messages st ++ [m]))
    by (constructor; [vm_compute; discriminate | constructor]).
  split; [exact Hguard|]. split; [exact Hconv|]. split; [exact Hfresh|].
  exact (answered_turn_appends_stored_rows env st (lit "c1") m None None None
           (Some (lit "token")) None (lit "Hi there") final None
           Hguard Hconv eq_refl eq_refl eq_refl eq_refl eq_refl eq_refl Hfresh).
Defined.


(** ** The request to the model *)

(** X26. The request to the model starts with the messages of the
    conversation, in order, each with its role and its content; it ends with
    one or two messages of the user, and with the content alone when the
    turn has no attachment. *)
Theorem history_is_sent_first prior atts content :
  exists tail,
    messagesForLLM prior atts content = history prior ++ tail
    /\ (1 <= length tail <= 2)%nat
    /\ Forall (fun m => role m = user) tail
    /\ (atts = [] -> tail = [ {| role := user; content := Text content |} ]).
Proof.
  unfold messagesForLLM. fold (history prior).
  destruct atts as [|a atts]; cbn [length Nat.ltb Nat.leb].
  - eexists. split; [reflexivity|]. cbn [length].
    split; [lia|]. split; [repeat constructor | reflexivity].
  - destruct (fold_left _ _ _) as [combined images].
    eexists. split; [reflexivity|].
    destruct images as [|i images]; cbn [app length Nat.ltb Nat.leb];
      (split; [lia|]); (split; [repeat constructor | discriminate]).
Qed.

End ChatMore.
